(** * sales-prompt-creator: form persistence, model list, history paging

    A shallow embedding of the three React components of the repository
    (prompt-form.tsx, prompt-history.tsx and the prompt container) together
    with the two browser facilities they rely on: [localStorage] and the
    [JSON] codec.  React state is threaded explicitly, timers are explicit
    clock-stamped entries, and exceptions are explicit outcomes. *)

From Stdlib Require Import Ascii String DecimalString NArith Lia.
From stdpp Require Import gmap strings list.

(** Characters that cannot be written inside a literal. *)
Definition dquote : ascii := "034"%char.
Definition bslash : ascii := "092"%char.

(* ===================================================================== *)
(** ** The JSON codec of the platform ([JSON.parse], [JSON.stringify])   *)
(* ===================================================================== *)

Module JSON.

#[local] Set Warnings "-register-all".

(** JavaScript values that JSON can denote.  A number keeps the text it was
    written with (doubles are not modelled); strings are byte strings, a
    non-ASCII code unit being held in its UTF-8 form. *)
Inductive json : Type :=
| JNull
| JBool (b : bool)
| JNum (lexeme : string)
| JStr (s : string)
| JArr (elems : list json)
| JObj (members : list (string * json)).

(** Outcome of a parsing function: a value and the unread input, a
    [SyntaxError], or the recursion budget ran out. *)
Inductive presult (A : Type) : Type :=
| POk (a : A) (rest : string)
| PSyntaxError
| PFuel.
Arguments POk {A} a rest.
Arguments PSyntaxError {A}.
Arguments PFuel {A}.

Definition pmap {A B} (f : A → B) (r : presult A) : presult B :=
  match r with
  | POk a rest => POk (f a) rest
  | PSyntaxError => PSyntaxError
  | PFuel => PFuel
  end.

Definition is_ws (c : ascii) : bool :=
  Ascii.eqb c " " || Ascii.eqb c "009" || Ascii.eqb c "010" || Ascii.eqb c "013".

Fixpoint skip_ws (s : string) : string :=
  match s with
  | String c r => if is_ws c then skip_ws r else s
  | EmptyString => EmptyString
  end.

Definition is_digit (c : ascii) : bool :=
  (48 <=? N_of_ascii c)%N && (N_of_ascii c <=? 57)%N.

Definition hex_value (c : ascii) : option N :=
  let n := N_of_ascii c in
  if (48 <=? n)%N && (n <=? 57)%N then Some (n - 48)%N
  else if (97 <=? n)%N && (n <=? 102)%N then Some (n - 87)%N
  else if (65 <=? n)%N && (n <=? 70)%N then Some (n - 55)%N
  else None.

Definition hex_digit (n : N) : ascii :=
  if (n <? 10)%N then ascii_of_N (48 + n) else ascii_of_N (87 + n).

(** A code unit given by a [\uXXXX] escape, as bytes. *)
Definition code_unit_bytes (n : N) : string :=
  if (n <? 128)%N then String (ascii_of_N n) EmptyString
  else if (n <? 2048)%N then
    String (ascii_of_N (192 + n / 64))
      (String (ascii_of_N (128 + n mod 64)) EmptyString)
  else
    String (ascii_of_N (224 + n / 4096))
      (String (ascii_of_N (128 + (n / 64) mod 64))
         (String (ascii_of_N (128 + n mod 64)) EmptyString)).

Definition escape_value (c : ascii) : option ascii :=
  if Ascii.eqb c dquote then Some dquote
  else if Ascii.eqb c bslash then Some bslash
  else if Ascii.eqb c "/" then Some "/"%char
  else if Ascii.eqb c "b" then Some "008"%char
  else if Ascii.eqb c "f" then Some "012"%char
  else if Ascii.eqb c "n" then Some "010"%char
  else if Ascii.eqb c "r" then Some "013"%char
  else if Ascii.eqb c "t" then Some "009"%char
  else None.

(** The characters of a string literal, read after its opening quote; the
    result is the decoded text and the input after the closing quote. *)
Fixpoint parse_string_body (s : string) : option (string * string) :=
  match s with
  | EmptyString => None
  | String c r =>
    if Ascii.eqb c dquote then Some (EmptyString, r)
    else if Ascii.eqb c bslash then
      match r with
      | EmptyString => None
      | String e r1 =>
        if Ascii.eqb e "u" then
          match r1 with
          | String h1 (String h2 (String h3 (String h4 r2))) =>
            match hex_value h1, hex_value h2, hex_value h3, hex_value h4 with
            | Some a, Some b, Some c', Some d =>
              match parse_string_body r2 with
              | Some (t, rest) =>
                Some (code_unit_bytes (a * 4096 + b * 256 + c' * 16 + d) +:+ t, rest)
              | None => None
              end
            | _, _, _, _ => None
            end
          | _ => None
          end
        else
          match escape_value e with
          | Some x =>
            match parse_string_body r1 with
            | Some (t, rest) => Some (String x t, rest)
            | None => None
            end
          | None => None
          end
      end
    else if (N_of_ascii c <? 32)%N then None
    else
      match parse_string_body r with
      | Some (t, rest) => Some (String c t, rest)
      | None => None
      end
  end.

Fixpoint span_digits (s : string) : string * string :=
  match s with
  | String c r =>
    if is_digit c then let '(d, r') := span_digits r in (String c d, r')
    else (EmptyString, s)
  | EmptyString => (EmptyString, EmptyString)
  end.

Definition digits1 (s : string) : option (string * string) :=
  match span_digits s with
  | (EmptyString, _) => None
  | (d, r) => Some (d, r)
  end.

(** number = [-] int [frac] [exp]; the result is the lexeme and the rest. *)
Definition parse_number (s : string) : option (string * string) :=
  let '(sign, s1) :=
    match s with
    | String c r => if Ascii.eqb c "-" then ("-", r) else (EmptyString, s)
    | EmptyString => (EmptyString, s)
    end in
  let int_part :=
    match s1 with
    | String c r =>
      if Ascii.eqb c "0" then Some ("0", r)
      else if is_digit c then let '(d, r') := span_digits r in Some (String c d, r')
      else None
    | EmptyString => None
    end in
  match int_part with
  | None => None
  | Some (i, s2) =>
    let frac_part :=
      match s2 with
      | String c r =>
        if Ascii.eqb c "." then
          match digits1 r with
          | Some (d, r') => Some (String c d, r')
          | None => None
          end
        else Some (EmptyString, s2)
      | EmptyString => Some (EmptyString, s2)
      end in
    match frac_part with
    | None => None
    | Some (f, s3) =>
      let exp_part :=
        match s3 with
        | String c r =>
          if Ascii.eqb c "e" || Ascii.eqb c "E" then
            let '(sg, r0) :=
              match r with
              | String c' r' =>
                if Ascii.eqb c' "+" || Ascii.eqb c' "-"
                then (String c' EmptyString, r') else (EmptyString, r)
              | EmptyString => (EmptyString, r)
              end in
            match digits1 r0 with
            | Some (d, r') => Some (String c (sg +:+ d), r')
            | None => None
            end
          else Some (EmptyString, s3)
        | EmptyString => Some (EmptyString, s3)
        end in
      match exp_part with
      | None => None
      | Some (e, s4) => Some (sign +:+ i +:+ f +:+ e, s4)
      end
    end
  end.

Fixpoint strip_prefix (p s : string) : option string :=
  match p, s with
  | EmptyString, _ => Some s
  | String a p', String b s' => if Ascii.eqb a b then strip_prefix p' s' else None
  | String _ _, EmptyString => None
  end.

Definition parse_word (w : string) (v : json) (s : string) : presult json :=
  match strip_prefix w s with
  | Some r => POk v r
  | None => PSyntaxError
  end.

(** One level of the grammar, over the parsers of the level below: a
    value, the elements of an array after its bracket, the members of an
    object after its brace. *)
Section Level.
Context (value : string → presult json).
Context (elements : string → presult (list json)).
Context (members : string → presult (list (string * json))).

Definition value_body (s : string) : presult json :=
  match skip_ws s with
  | EmptyString => PSyntaxError
  | String c r as s' =>
    if Ascii.eqb c "{" then
      match skip_ws r with
      | String c' r' =>
        if Ascii.eqb c' "}" then POk (JObj []) r' else pmap JObj (members r)
      | EmptyString => PSyntaxError
      end
    else if Ascii.eqb c "[" then
      match skip_ws r with
      | String c' r' =>
        if Ascii.eqb c' "]" then POk (JArr []) r' else pmap JArr (elements r)
      | EmptyString => PSyntaxError
      end
    else if Ascii.eqb c dquote then
      match parse_string_body r with
      | Some (t, rest) => POk (JStr t) rest
      | None => PSyntaxError
      end
    else if Ascii.eqb c "t" then parse_word "true" (JBool true) s'
    else if Ascii.eqb c "f" then parse_word "false" (JBool false) s'
    else if Ascii.eqb c "n" then parse_word "null" JNull s'
    else
      match parse_number s' with
      | Some (lex, rest) => POk (JNum lex) rest
      | None => PSyntaxError
      end
  end.

Definition elements_body (s : string) : presult (list json) :=
  match value s with
  | POk v r =>
    match skip_ws r with
    | String c r' =>
      if Ascii.eqb c "," then pmap (cons v) (elements r')
      else if Ascii.eqb c "]" then POk [v] r'
      else PSyntaxError
    | EmptyString => PSyntaxError
    end
  | PSyntaxError => PSyntaxError
  | PFuel => PFuel
  end.

Definition members_body (s : string) : presult (list (string * json)) :=
  match skip_ws s with
  | String q r =>
    if Ascii.eqb q dquote then
      match parse_string_body r with
      | Some (k, r1) =>
        match skip_ws r1 with
        | String c r2 =>
          if Ascii.eqb c ":" then
            match value r2 with
            | POk v r3 =>
              match skip_ws r3 with
              | String c' r4 =>
                if Ascii.eqb c' "," then pmap (cons (k, v)) (members r4)
                else if Ascii.eqb c' "}" then POk [(k, v)] r4
                else PSyntaxError
              | EmptyString => PSyntaxError
              end
            | PSyntaxError => PSyntaxError
            | PFuel => PFuel
            end
          else PSyntaxError
        | EmptyString => PSyntaxError
        end
      | None => PSyntaxError
      end
    else PSyntaxError
  | EmptyString => PSyntaxError
  end.
End Level.

(** The recursion: every level is run on a smaller budget. *)
Fixpoint parse_value (fuel : nat) (s : string) {struct fuel} : presult json :=
  match fuel with
  | O => PFuel
  | S n => value_body (parse_elements n) (parse_members n) s
  end
with parse_elements (fuel : nat) (s : string) {struct fuel} : presult (list json) :=
  match fuel with
  | O => PFuel
  | S n => elements_body (parse_value n) (parse_elements n) s
  end
with parse_members (fuel : nat) (s : string) {struct fuel}
    : presult (list (string * json)) :=
  match fuel with
  | O => PFuel
  | S n => members_body (parse_value n) (parse_members n) s
  end.

(** [JSON.parse]: one value, then nothing but white space. *)
Definition parse (s : string) : presult json :=
  match parse_value (2 * String.length s + 1) s with
  | POk v r =>
    match skip_ws r with
    | EmptyString => POk v EmptyString
    | String _ _ => PSyntaxError
    end
  | PSyntaxError => PSyntaxError
  | PFuel => PFuel
  end.

(** [JSON.stringify] (QuoteJSONString and SerializeJSONProperty). *)
Definition quote_char (c : ascii) : string :=
  if Ascii.eqb c dquote then String bslash (String dquote EmptyString)
  else if Ascii.eqb c bslash then String bslash (String bslash EmptyString)
  else if Ascii.eqb c "008" then String bslash "b"
  else if Ascii.eqb c "012" then String bslash "f"
  else if Ascii.eqb c "010" then String bslash "n"
  else if Ascii.eqb c "013" then String bslash "r"
  else if Ascii.eqb c "009" then String bslash "t"
  else if (N_of_ascii c <? 32)%N then
    String bslash
      (String "u" (String "0" (String "0"
         (String (hex_digit (N_of_ascii c / 16))
            (String (hex_digit (N_of_ascii c mod 16)) EmptyString)))))
  else String c EmptyString.

Fixpoint quote_body (s : string) : string :=
  match s with
  | EmptyString => EmptyString
  | String c r => quote_char c +:+ quote_body r
  end.

Definition quote (s : string) : string :=
  String dquote (quote_body s +:+ String dquote EmptyString).

Fixpoint join (sep : string) (l : list string) : string :=
  match l with
  | [] => EmptyString
  | [x] => x
  | x :: r => x +:+ sep +:+ join sep r
  end.

Fixpoint stringify (v : json) : string :=
  match v with
  | JNull => "null"
  | JBool true => "true"
  | JBool false => "false"
  | JNum lexeme => lexeme
  | JStr s => quote s
  | JArr l => "[" +:+ join "," (List.map stringify l) +:+ "]"
  | JObj ms =>
    "{" +:+ join ","
      (List.map (λ kv, quote (fst kv) +:+ ":" +:+ stringify (snd kv)) ms) +:+ "}"
  end.

End JSON.
Import JSON.

(* ===================================================================== *)
(** ** JavaScript conversions used by the components                      *)
(* ===================================================================== *)

Module JS.

(** A property read yields [option json]: [None] is [undefined]. *)

Definition truthy_string (s : string) : bool :=
  match s with
  | EmptyString => false
  | String _ _ => true
  end.

(** A number lexeme denotes zero when its mantissa has no non-zero digit. *)
Fixpoint is_zero_lexeme (s : string) : bool :=
  match s with
  | EmptyString => true
  | String c r =>
    if Ascii.eqb c "e" || Ascii.eqb c "E" then true
    else if Ascii.eqb c "-" || Ascii.eqb c "0" || Ascii.eqb c "." then is_zero_lexeme r
    else false
  end.

(** ToBoolean. *)
Definition truthy (v : option json) : bool :=
  match v with
  | None => false
  | Some JNull => false
  | Some (JBool b) => b
  | Some (JNum lexeme) => negb (is_zero_lexeme lexeme)
  | Some (JStr s) => truthy_string s
  | Some (JArr _) => true
  | Some (JObj _) => true
  end.

(** ToString, as [localStorage.setItem] applies it to its value. *)
Fixpoint toString (v : json) : string :=
  match v with
  | JNull => "null"
  | JBool true => "true"
  | JBool false => "false"
  | JNum lexeme => lexeme
  | JStr s => s
  | JArr l =>
    JSON.join ","
      (List.map (λ x, match x with JNull => EmptyString | _ => toString x end) l)
  | JObj _ => "[object Object]"
  end.

(** [x?.length]; the length of a string is its number of code units,
    which for ASCII text is its number of bytes. *)
Definition length_of (v : option json) : option nat :=
  match v with
  | Some (JStr s) => Some (String.length s)
  | Some (JArr l) => Some (length l)
  | _ => None
  end.

(** [Object.is] on the values a dependency array can hold here: primitives
    compare by value; arrays and objects compare by reference, and no
    reference is shared between two renders. *)
Definition Object_is (a b : option json) : bool :=
  match a, b with
  | None, None => true
  | Some JNull, Some JNull => true
  | Some (JBool x), Some (JBool y) => Bool.eqb x y
  | Some (JNum x), Some (JNum y) => String.eqb x y
  | Some (JStr x), Some (JStr y) => String.eqb x y
  | _, _ => false
  end.

Definition index_key (i : nat) : string := NilZero.string_of_uint (Nat.to_uint i).

(** Defining a property on an object: a property that exists keeps its
    place and takes the new value, a new one goes last. *)
Fixpoint set_property (k : string) (v : json) (ps : list (string * json))
    : list (string * json) :=
  match ps with
  | [] => [(k, v)]
  | (k', v') :: r =>
    if String.eqb k' k then (k', v) :: r else (k', v') :: set_property k v r
  end.

(** The own properties of the object that [JSON.parse] builds from the
    members it read (the reordering of integer-like keys is left out: the
    callers below are insensitive to the order of distinct keys). *)
Definition own_properties (ms : list (string * json)) : list (string * json) :=
  foldl (λ ps kv, set_property kv.1 kv.2 ps) [] ms.

(** [Object.entries]; [None] is the [TypeError] raised on [null]. *)
Definition Object_entries (v : json) : option (list (string * json)) :=
  match v with
  | JNull => None
  | JBool _ => Some []
  | JNum _ => Some []
  | JStr s =>
    Some (imap (λ i c, (index_key i, JStr (String c EmptyString)))
            (list_ascii_of_string s))
  | JArr l => Some (imap (λ i x, (index_key i, x)) l)
  | JObj ms => Some (own_properties ms)
  end.

(** An object literal [{k1: e1, ...}] whose property values may be
    [undefined]; [JSON.stringify] leaves those properties out. *)
Definition stringify_object (props : list (string * option json)) : string :=
  JSON.stringify (JObj (omap (λ kv, pair kv.1 <$> kv.2) props)).

End JS.
Import JS.

(* ===================================================================== *)
(** ** components/prompt-form.tsx                                         *)
(* ===================================================================== *)

(** [z.infer<typeof formSchema>]. *)
Record FormValues : Type := {
  apiKey : string;
  model : string;
  aiName : string;
  companyName : string;
  industry : string;
  targetAudience : string;
  challenges : string;
  product : string;
  objective : string;
  objections : string;
  additionalInfo : option string;
}.

(** An entry of the model list, [{ id: string }]. *)
Module OpenAI.
Record Model : Type := { id : string }.
End OpenAI.

(** What a component does to the outside, in the order it does it. *)
Inductive effect : Type :=
| SetItem (key value : string)
| RemoveItem (key : string)
| ConsoleError (message : string)
| Toast (title description : string) (destructive : bool)
| ModelsList (key : json)
| Generate (values : FormValues)
| Uncaught (name : string).

Module PromptForm.

(** *** formSchema *)

Inductive SafeParse : Type :=
| Success (data : FormValues)
| Failure (issues : list (string * string)).

Definition received (v : json) : string :=
  match v with
  | JNull => "null"
  | JBool _ => "boolean"
  | JNum _ => "number"
  | JStr _ => "string"
  | JArr _ => "array"
  | JObj _ => "object"
  end.

(** [z.string().min(1, message)] at property [name]. *)
Definition string_min1 (name message : string) (v : option json)
    : list (string * string) :=
  match v with
  | None => [(name, "Required")]
  | Some (JStr s) => if truthy_string s then [] else [(name, message)]
  | Some x => [(name, "Expected string, received " +:+ received x)]
  end.

(** [z.string().optional()] at property [name]. *)
Definition string_optional (name : string) (v : option json)
    : list (string * string) :=
  match v with
  | None => []
  | Some (JStr _) => []
  | Some x => [(name, "Expected string, received " +:+ received x)]
  end.

Definition as_string (v : option json) : string :=
  match v with
  | Some (JStr s) => s
  | _ => EmptyString
  end.

Definition as_optional_string (v : option json) : option string :=
  match v with
  | Some (JStr s) => Some s
  | _ => None
  end.

Definition formSchema (input : gmap string json) : SafeParse :=
  let issues :=
    string_min1 "apiKey" "OpenAI API key is required" (input !! "apiKey") ++
    string_min1 "model" "Model selection is required" (input !! "model") ++
    string_min1 "aiName" "AI name is required" (input !! "aiName") ++
    string_min1 "companyName" "Company name is required" (input !! "companyName") ++
    string_min1 "industry" "Industry is required" (input !! "industry") ++
    string_min1 "targetAudience" "Target audience is required"
      (input !! "targetAudience") ++
    string_min1 "challenges" "Challenges are required" (input !! "challenges") ++
    string_min1 "product" "Product/service is required" (input !! "product") ++
    string_min1 "objective" "Call objective is required" (input !! "objective") ++
    string_min1 "objections" "Common objections are required"
      (input !! "objections") ++
    string_optional "additionalInfo" (input !! "additionalInfo") in
  match issues with
  | [] =>
    Success {|
      apiKey := as_string (input !! "apiKey");
      model := as_string (input !! "model");
      aiName := as_string (input !! "aiName");
      companyName := as_string (input !! "companyName");
      industry := as_string (input !! "industry");
      targetAudience := as_string (input !! "targetAudience");
      challenges := as_string (input !! "challenges");
      product := as_string (input !! "product");
      objective := as_string (input !! "objective");
      objections := as_string (input !! "objections");
      additionalInfo := as_optional_string (input !! "additionalInfo") |}
  | _ :: _ => Failure issues
  end.

(** The object a [FormValues] is at run time: a property per field, an
    [undefined] one being absent. *)
Definition object_of (props : list (string * option json)) : gmap string json :=
  list_to_map (omap (λ kv, pair kv.1 <$> kv.2) props).

Definition to_object (v : FormValues) : gmap string json :=
  object_of [
    ("model", Some (JStr (model v)));
    ("apiKey", Some (JStr (apiKey v)));
    ("aiName", Some (JStr (aiName v)));
    ("companyName", Some (JStr (companyName v)));
    ("industry", Some (JStr (industry v)));
    ("targetAudience", Some (JStr (targetAudience v)));
    ("challenges", Some (JStr (challenges v)));
    ("product", Some (JStr (product v)));
    ("objective", Some (JStr (objective v)));
    ("objections", Some (JStr (objections v)));
    ("additionalInfo", JStr <$> additionalInfo v) ].

Definition STORAGE_KEY : string := "sales-prompt-form".

(** *** The component and its surroundings

    [values] and [errors] are the state of [useForm]; [fetchTimer] is the
    timeout of the API-key effect (due time, captured key); [timeoutId] is
    the one of [debouncedSave] (due time, captured [formData]); [inflight]
    counts the requests of [fetchModels] not yet settled. *)
Record machine : Type := {
  now : nat;
  localStorage : gmap string string;
  log : list effect;
  values : gmap string json;
  errors : list (string * string);
  mounted : bool;
  models : list OpenAI.Model;
  isLoadingModels : bool;
  fetchTimer : option (nat * json);
  timeoutId : option (nat * gmap string json);
  inflight : nat;
}.

Definition with_now x m :=
  {| now := x; localStorage := localStorage m; log := log m; values := values m;
     errors := errors m; mounted := mounted m; models := models m;
     isLoadingModels := isLoadingModels m; fetchTimer := fetchTimer m;
     timeoutId := timeoutId m; inflight := inflight m |}.
Definition with_localStorage x m :=
  {| now := now m; localStorage := x; log := log m; values := values m;
     errors := errors m; mounted := mounted m; models := models m;
     isLoadingModels := isLoadingModels m; fetchTimer := fetchTimer m;
     timeoutId := timeoutId m; inflight := inflight m |}.
Definition with_log x m :=
  {| now := now m; localStorage := localStorage m; log := x; values := values m;
     errors := errors m; mounted := mounted m; models := models m;
     isLoadingModels := isLoadingModels m; fetchTimer := fetchTimer m;
     timeoutId := timeoutId m; inflight := inflight m |}.
Definition with_values x m :=
  {| now := now m; localStorage := localStorage m; log := log m; values := x;
     errors := errors m; mounted := mounted m; models := models m;
     isLoadingModels := isLoadingModels m; fetchTimer := fetchTimer m;
     timeoutId := timeoutId m; inflight := inflight m |}.
Definition with_errors x m :=
  {| now := now m; localStorage := localStorage m; log := log m; values := values m;
     errors := x; mounted := mounted m; models := models m;
     isLoadingModels := isLoadingModels m; fetchTimer := fetchTimer m;
     timeoutId := timeoutId m; inflight := inflight m |}.
Definition with_mounted x m :=
  {| now := now m; localStorage := localStorage m; log := log m; values := values m;
     errors := errors m; mounted := x; models := models m;
     isLoadingModels := isLoadingModels m; fetchTimer := fetchTimer m;
     timeoutId := timeoutId m; inflight := inflight m |}.
Definition with_models x m :=
  {| now := now m; localStorage := localStorage m; log := log m; values := values m;
     errors := errors m; mounted := mounted m; models := x;
     isLoadingModels := isLoadingModels m; fetchTimer := fetchTimer m;
     timeoutId := timeoutId m; inflight := inflight m |}.
Definition with_isLoadingModels x m :=
  {| now := now m; localStorage := localStorage m; log := log m; values := values m;
     errors := errors m; mounted := mounted m; models := models m;
     isLoadingModels := x; fetchTimer := fetchTimer m;
     timeoutId := timeoutId m; inflight := inflight m |}.
Definition with_fetchTimer x m :=
  {| now := now m; localStorage := localStorage m; log := log m; values := values m;
     errors := errors m; mounted := mounted m; models := models m;
     isLoadingModels := isLoadingModels m; fetchTimer := x;
     timeoutId := timeoutId m; inflight := inflight m |}.
Definition with_timeoutId x m :=
  {| now := now m; localStorage := localStorage m; log := log m; values := values m;
     errors := errors m; mounted := mounted m; models := models m;
     isLoadingModels := isLoadingModels m; fetchTimer := fetchTimer m;
     timeoutId := x; inflight := inflight m |}.
Definition with_inflight x m :=
  {| now := now m; localStorage := localStorage m; log := log m; values := values m;
     errors := errors m; mounted := mounted m; models := models m;
     isLoadingModels := isLoadingModels m; fetchTimer := fetchTimer m;
     timeoutId := timeoutId m; inflight := x |}.

Definition emit (e : effect) (m : machine) : machine := with_log (log m ++ [e]) m.

(** [localStorage.getItem / setItem / removeItem]. *)
Definition getItem (key : string) (m : machine) : option string :=
  localStorage m !! key.
Definition setItem (key value : string) (m : machine) : machine :=
  emit (SetItem key value) (with_localStorage (<[key := value]> (localStorage m)) m).
Definition removeItem (key : string) (m : machine) : machine :=
  emit (RemoveItem key) (with_localStorage (delete key (localStorage m)) m).

(** [form.setValue(name, value)] (a name is one property; the field names
    of the form hold no path separator). *)
Definition setValue (name : string) (value : json) (m : machine) : machine :=
  with_values (<[name := value]> (values m)) m.

Definition defaultValues : gmap string json :=
  object_of [
    ("model", Some (JStr "gpt-4o-mini"));
    ("apiKey", Some (JStr EmptyString));
    ("aiName", Some (JStr EmptyString));
    ("companyName", Some (JStr EmptyString));
    ("industry", Some (JStr EmptyString));
    ("targetAudience", Some (JStr EmptyString));
    ("challenges", Some (JStr EmptyString));
    ("product", Some (JStr EmptyString));
    ("objective", Some (JStr EmptyString));
    ("objections", Some (JStr EmptyString));
    ("additionalInfo", Some (JStr EmptyString)) ].

(** The component before its first effect runs, over a given store. *)
Definition initial (store : gmap string string) : machine :=
  {| now := 0; localStorage := store; log := []; values := defaultValues;
     errors := []; mounted := false;
     models := [ {| OpenAI.id := "gpt-4o-mini" |}; {| OpenAI.id := "gpt-4o" |} ];
     isLoadingModels := false; fetchTimer := None; timeoutId := None;
     inflight := 0 |}.

(** *** The effect that loads the saved form (lines 78-96) *)

Inductive outcome : Type :=
| Done (m : machine)
| Throws (name : string)
| Exhausted.

Definition restore_entry (m : machine) (kv : string * json) : machine :=
  if String.eqb kv.1 "apiKey" then m else setValue kv.1 kv.2 m.

Definition loadEffect (m : machine) : outcome :=
  let savedApiKey := getItem "openai-api-key" m in
  let savedFormData := getItem STORAGE_KEY m in
  let restored :=
    match savedFormData with
    | Some text =>
      if truthy_string text then
        match JSON.parse text with
        | POk parsedData _ =>
          match Object_entries parsedData with
          | Some entries => Done (foldl restore_entry m entries)
          | None => Throws "TypeError"
          end
        | PSyntaxError => Throws "SyntaxError"
        | PFuel => Exhausted
        end
      else Done m
    | None => Done m
    end in
  match restored with
  | Done m1 =>
    let m2 :=
      match savedApiKey with
      | Some k => if truthy_string k then setValue "apiKey" (JStr k) m1 else m1
      | None => m1
      end in
    Done (with_mounted true m2)
  | Throws name => Throws name
  | Exhausted => Exhausted
  end.

(** *** fetchModels (lines 99-129), split at its [await] *)

Inductive api_result : Type :=
| Listed (data : list OpenAI.Model)
| Failed (message : string).

Definition defaultModels : list string := ["gpt-4o-mini"; "gpt-4o"].

Definition includes (l : list string) (x : string) : bool :=
  existsb (String.eqb x) l.

(** Up to the request.  [mounted] is the value the callback closed over;
    the timer that calls it was armed by a render in which it was [true],
    and it never goes back to [false].  The component runs in the browser,
    where [window] is defined. *)
Definition fetchModels_begin (key : json) (m : machine) : machine :=
  if negb (truthy (Some key)) || negb (mounted m) then m
  else
    emit (ModelsList key)
      (with_inflight (S (inflight m)) (with_isLoadingModels true m)).

(** From the answer on: [try] body, [catch], [finally]. *)
Definition fetchModels_settle (r : api_result) (m : machine) : machine :=
  let m1 :=
    match r with
    | Listed data =>
      let filteredModels :=
        List.filter (λ model, negb (includes defaultModels (OpenAI.id model))) data in
      with_models
        ({| OpenAI.id := "gpt-4o-mini" |} :: {| OpenAI.id := "gpt-4o" |}
           :: filteredModels) m
    | Failed message =>
      emit (Toast "Failed to load models"
              "Using default models only. Please check your API key." true)
        (emit (ConsoleError ("Failed to fetch models: " +:+ message)) m)
    end in
  with_isLoadingModels false (with_inflight (pred (inflight m1)) m1).

(** *** The effect that watches the API key (lines 132-140) *)

Definition apiKey_effect (m : machine) : machine :=
  let key := values m !! "apiKey" in
  let cleaned := with_fetchTimer None m in
  match key, length_of key with
  | Some k, Some n =>
    if mounted m && (30 <=? n)
    then with_fetchTimer (Some (now m + 500, k)) cleaned
    else cleaned
  | _, _ => cleaned
  end.

(** *** debouncedSave and the effect that calls it (lines 143-181) *)

Definition save_timeout (formData : gmap string json) (m : machine) : machine :=
  let dataToSave :=
    [ ("model", formData !! "model");
      ("aiName", formData !! "aiName");
      ("companyName", formData !! "companyName");
      ("industry", formData !! "industry");
      ("targetAudience", formData !! "targetAudience");
      ("challenges", formData !! "challenges");
      ("product", formData !! "product");
      ("objective", formData !! "objective");
      ("objections", formData !! "objections");
      ("additionalInfo", formData !! "additionalInfo") ] in
  let m1 := setItem STORAGE_KEY (stringify_object dataToSave) m in
  let m2 :=
    match formData !! "apiKey" with
    | Some k => if truthy (Some k) then setItem "openai-api-key" (toString k) m1 else m1
    | None => m1
    end in
  with_timeoutId None m2.

Definition debouncedSave (formData : gmap string json) (m : machine) : machine :=
  with_timeoutId (Some (now m + 300, formData)) m.

Definition save_effect (m : machine) : machine :=
  if mounted m then debouncedSave (values m) m else m.

(** The effects of a render that follows a state change: an effect runs
    again when one of its dependencies differs ([fetchModels] is a new
    function exactly when [mounted] changed; [form.watch()] is a new object
    at every render). *)
Definition rendered (before m : machine) : machine :=
  let m1 :=
    if Object_is (values before !! "apiKey") (values m !! "apiKey")
       && Bool.eqb (mounted before) (mounted m)
    then m else apiKey_effect m in
  save_effect m1.

(** *** resetForm (lines 187-207) *)

Definition resetForm (m : machine) : machine :=
  let key := values m !! "apiKey" in
  let m1 :=
    with_errors []
      (with_values
         (object_of [
            ("model", Some (JStr "gpt-4o-mini"));
            ("apiKey", key);
            ("aiName", Some (JStr EmptyString));
            ("companyName", Some (JStr EmptyString));
            ("industry", Some (JStr EmptyString));
            ("targetAudience", Some (JStr EmptyString));
            ("challenges", Some (JStr EmptyString));
            ("product", Some (JStr EmptyString));
            ("objective", Some (JStr EmptyString));
            ("objections", Some (JStr EmptyString));
            ("additionalInfo", Some (JStr EmptyString)) ]) m) in
  let m2 := removeItem STORAGE_KEY m1 in
  emit (Toast "Form Reset" "All fields have been cleared except the API key" false) m2.

(** *** handleSubmit behind [form.handleSubmit] (lines 183-185, 215) *)

Section Submit.
Context {C : Type} (onSubmit : FormValues → C → C).

Definition handleSubmit (values : FormValues) : C → C := onSubmit values.

(** [form.handleSubmit(handleSubmit)]: the resolver runs first. *)
Definition form_handleSubmit (m : machine) (c : C) : machine * C :=
  match formSchema (values m) with
  | Success data => (with_errors [] m, handleSubmit data c)
  | Failure issues => (with_errors issues m, c)
  end.

(** A click on the submit button; the button is [disabled={isLoading}],
    and a disabled button gives no event. *)
Definition click_submit (isLoading : bool) (m : machine) (c : C)
    : option (machine * C) :=
  if isLoading then None else Some (form_handleSubmit m c).
End Submit.

(** *** What happens to the component *)

Inductive field : Type :=
| F_apiKey | F_model | F_aiName | F_companyName | F_industry
| F_targetAudience | F_challenges | F_product | F_objective | F_objections
| F_additionalInfo.

Definition name_of (f : field) : string :=
  match f with
  | F_apiKey => "apiKey"
  | F_model => "model"
  | F_aiName => "aiName"
  | F_companyName => "companyName"
  | F_industry => "industry"
  | F_targetAudience => "targetAudience"
  | F_challenges => "challenges"
  | F_product => "product"
  | F_objective => "objective"
  | F_objections => "objections"
  | F_additionalInfo => "additionalInfo"
  end.

Inductive event : Type :=
| Mount                          (* the first effects run *)
| Input (f : field) (text : string)   (* the user edits a field *)
| ClickReset
| Render                         (* a render without a change of its own *)
| Advance (ms : nat)             (* time passes *)
| SaveTimeout                    (* the timer of debouncedSave comes due *)
| FetchTimeout                   (* the timer of the API-key effect comes due *)
| FetchSettled (r : api_result). (* a request of fetchModels is answered *)

(** Nothing is on screen before [mounted] (the component returns [null]);
    a timer runs its callback no earlier than its due time. *)
Definition step (e : event) (m : machine) : machine :=
  match e with
  | Mount =>
    if mounted m then m
    else
      match loadEffect m with
      | Done m' => rendered m m'
      | Throws name => emit (Uncaught name) m
      | Exhausted => m
      end
  | Input f text =>
    if mounted m then rendered m (setValue (name_of f) (JStr text) m) else m
  | ClickReset => if mounted m then rendered m (resetForm m) else m
  | Render => rendered m m
  | Advance ms => with_now (now m + ms) m
  | SaveTimeout =>
    match timeoutId m with
    | Some (due, formData) => if due <=? now m then save_timeout formData m else m
    | None => m
    end
  | FetchTimeout =>
    match fetchTimer m with
    | Some (due, k) =>
      if due <=? now m
      then rendered m (fetchModels_begin k (with_fetchTimer None m))
      else m
    | None => m
    end
  | FetchSettled r =>
    if 0 <? inflight m then rendered m (fetchModels_settle r m) else m
  end.

Definition run (evs : list event) (m : machine) : machine :=
  foldl (λ m e, step e m) m evs.

End PromptForm.


(* ===================================================================== *)
(** ** components/prompt-history.tsx                                      *)
(* ===================================================================== *)

Module PromptHistory.

Record PromptHistoryItem : Type := {
  id : string;
  content : string;
  timestamp : Z;
  formData : FormValues;
}.

Definition ITEMS_PER_PAGE : Z := 10.

(** [useState(0)] and [useState(new Set())]. *)
Record state : Type := {
  currentPage : Z;
  openItems : gset string;
}.

(** [Array.prototype.slice(start, end)] for integer arguments. *)
Definition slice {A} (l : list A) (start end_ : Z) : list A :=
  let len := Z.of_nat (length l) in
  let from := if (start <? 0)%Z then Z.max (len + start) 0 else Z.min start len in
  let to := if (end_ <? 0)%Z then Z.max (len + end_) 0 else Z.min end_ len in
  take (Z.to_nat (to - from)) (drop (Z.to_nat from) l).

(** [Math.ceil(history.length / ITEMS_PER_PAGE)]. *)
Definition totalPages (history : list PromptHistoryItem) : Z :=
  ((Z.of_nat (length history) + ITEMS_PER_PAGE - 1) / ITEMS_PER_PAGE)%Z.

Definition startIndex (s : state) : Z := (currentPage s * ITEMS_PER_PAGE)%Z.
Definition endIndex (s : state) : Z := (startIndex s + ITEMS_PER_PAGE)%Z.

Definition currentItems (history : list PromptHistoryItem) (s : state)
    : list PromptHistoryItem :=
  slice history (startIndex s) (endIndex s).

Definition toggleItem (item_id : string) (s : state) : state :=
  {| currentPage := currentPage s;
     openItems :=
       if decide (item_id ∈ openItems s) then openItems s ∖ {[ item_id ]}
       else openItems s ∪ {[ item_id ]} |}.

(** The two page buttons exist when there is more than one page, and
    each is disabled at its end of the range; [None]: no such click. *)
Definition click_previous (history : list PromptHistoryItem) (s : state)
    : option state :=
  if (1 <? totalPages history)%Z && negb (currentPage s =? 0)%Z then
    Some {| currentPage := Z.max 0 (currentPage s - 1); openItems := openItems s |}
  else None.

Definition click_next (history : list PromptHistoryItem) (s : state)
    : option state :=
  if (1 <? totalPages history)%Z
     && negb (currentPage s =? totalPages history - 1)%Z then
    Some {| currentPage := Z.min (totalPages history - 1) (currentPage s + 1);
            openItems := openItems s |}
  else None.

(** The buttons of a row, bound to the callbacks the component was given;
    [row] counts the rows of the page on screen. *)
Section Callbacks.
Context {C : Type}.
Context (onDelete : string → C → C).
Context (onRestore : FormValues → string → C → C).

Definition click_restore (history : list PromptHistoryItem) (s : state)
    (row : nat) (c : C) : option C :=
  match currentItems history s !! row with
  | Some item => Some (onRestore (formData item) (content item) c)
  | None => None
  end.

Definition click_delete (history : list PromptHistoryItem) (s : state)
    (row : nat) (c : C) : option C :=
  match currentItems history s !! row with
  | Some item => Some (onDelete (id item) c)
  | None => None
  end.
End Callbacks.

End PromptHistory.

(* ===================================================================== *)
(** ** The prompt container                                               *)
(* ===================================================================== *)

Module PromptContainer.

(** The state the claims speak of; the effect that copies [result] to its
    own storage key and the measuring of the form's height are left out. *)
Record state : Type := {
  isLoading : bool;
  result : option string;
  currentFormData : option FormValues;
  log : list effect;
}.

Definition initial : state :=
  {| isLoading := false; result := None; currentFormData := None; log := [] |}.

(** How the call of [generateSalesPrompt] ends. *)
Inductive generated : Type :=
| Fulfilled (prompt : string)
| Rejected (error : string).

(** [handleSubmit] up to its [await] ... *)
Definition handleSubmit_begin (values : FormValues) (c : state) : state :=
  {| isLoading := true;
     result := result c;
     currentFormData := Some values;
     log := log c ++ [Generate values] |}.

(** ... and from the answer on: [try] body, [catch], [finally]. *)
Definition handleSubmit_settle (r : generated) (c : state) : state :=
  match r with
  | Fulfilled prompt =>
    {| isLoading := false; result := Some prompt;
       currentFormData := currentFormData c; log := log c |}
  | Rejected error =>
    {| isLoading := false; result := result c;
       currentFormData := currentFormData c;
       log := log c ++ [ConsoleError error] |}
  end.

Definition handleRestoreFormData (formData : FormValues) (c : state) : state :=
  {| isLoading := isLoading c; result := result c;
     currentFormData := Some formData; log := log c |}.

Definition handleRestorePrompt (prompt : string) (c : state) : state :=
  {| isLoading := isLoading c; result := Some prompt;
     currentFormData := currentFormData c; log := log c |}.

Definition handleClearPrompt (c : state) : state :=
  {| isLoading := isLoading c; result := None;
     currentFormData := currentFormData c; log := log c |}.

(** The properties the container hands to its two children. *)
Definition restoredFormData (c : state) : option FormValues := currentFormData c.
Definition prompt (c : state) : option string := result c.

(** The number of generator calls a log records. *)
Definition generator_calls (l : list effect) : list FormValues :=
  omap (λ e, match e with Generate v => Some v | _ => None end) l.

End PromptContainer.

(** Modelled from the spec: the component between the history list and the
    container (generated-prompt.tsx, not among the sources).  It owns the
    list of history items and, on a restore, hands the stored [formData]
    and [content] to the container ("restore(id) exposes the stored
    formData and content to the caller without mutating the list");
    "deleting a non-existent id is a no-op". *)
Module GeneratedPrompt.

Record state : Type := {
  container : PromptContainer.state;
  history : list PromptHistory.PromptHistoryItem;
  view : PromptHistory.state;
}.

Definition onRestore (formData : FormValues) (prompt : string) (a : state) : state :=
  {| container :=
       PromptContainer.handleRestorePrompt prompt
         (PromptContainer.handleRestoreFormData formData (container a));
     history := history a;
     view := view a |}.

Definition onDelete (item_id : string) (a : state) : state :=
  {| container := container a;
     history :=
       List.filter (λ item, negb (String.eqb (PromptHistory.id item) item_id))
         (history a);
     view := view a |}.

Definition restore (row : nat) (a : state) : option state :=
  PromptHistory.click_restore onRestore (history a) (view a) row a.

End GeneratedPrompt.

(* ===================================================================== *)
(** ** Notions used by the statements                                     *)
(* ===================================================================== *)

Import PromptForm.

(** A member of an object whose value is a string, and the text
    [JSON.stringify] gives a member. *)
Definition str (kv : string * string) : string * json := (kv.1, JStr kv.2).

Definition member (kv : string * json) : string :=
  JSON.quote kv.1 +:+ ":" +:+ JSON.stringify kv.2.

(** A parser that, on inputs shorter than [k], neither runs out of budget
    nor hands back more input than it was given. *)
Definition sound {A} (p : string → presult A) (k : nat) : Prop :=
  ∀ s, String.length s < k →
    p s ≠ PFuel ∧ ∀ a r, p s = POk a r → String.length r ≤ String.length s.

Definition is_string (v : option json) : Prop := ∃ s, v = Some (JStr s).

(** The credential a load leaves in a fresh form. *)
Definition loaded_credential (store : gmap string string) : json :=
  match store !! "openai-api-key" with
  | Some k => if truthy_string k then JStr k else JStr EmptyString
  | None => JStr EmptyString
  end.

(** The fields [formSchema] requires: all but [additionalInfo]. *)
Definition required_fields (v : FormValues) : list string :=
  [ apiKey v; model v; aiName v; companyName v; industry v; targetAudience v;
    challenges v; product v; objective v; objections v ].

Definition all_filled (v : FormValues) : bool :=
  forallb truthy_string (required_fields v).

(** The history component showing page [p], nothing unfolded. *)
Definition page (p : Z) : PromptHistory.state :=
  {| PromptHistory.currentPage := p; PromptHistory.openItems := ∅ |}.

(** What [save_timeout] writes under the form-data key for a typed form. *)
Definition saved_members (v : FormValues) : list (string * string) :=
  [ ("model", model v); ("aiName", aiName v); ("companyName", companyName v);
    ("industry", industry v); ("targetAudience", targetAudience v);
    ("challenges", challenges v); ("product", product v);
    ("objective", objective v); ("objections", objections v) ] ++
  match additionalInfo v with
  | Some a => [("additionalInfo", a)]
  | None => []
  end.

Definition saved_text (v : FormValues) : string :=
  JSON.stringify (JObj (List.map str (saved_members v))).

(** The form a fresh load shows after [v] was saved over [store]: an empty
    credential is not written, so the one already stored comes back; an
    [undefined] additionalInfo is not written, so the default comes back. *)
Definition reloaded (store : gmap string string) (v : FormValues) : FormValues :=
  {| apiKey :=
       if truthy_string (apiKey v) then apiKey v
       else match store !! "openai-api-key" with
            | Some k => k
            | None => EmptyString
            end;
     model := model v; aiName := aiName v; companyName := companyName v;
     industry := industry v; targetAudience := targetAudience v;
     challenges := challenges v; product := product v;
     objective := objective v; objections := objections v;
     additionalInfo :=
       Some (match additionalInfo v with Some a => a | None => EmptyString end) |}.

Definition with_apiKey (k : string) (v : FormValues) : FormValues :=
  {| apiKey := k; model := model v; aiName := aiName v;
     companyName := companyName v; industry := industry v;
     targetAudience := targetAudience v; challenges := challenges v;
     product := product v; objective := objective v; objections := objections v;
     additionalInfo := additionalInfo v |}.

(** The value a key holds after the storage writes of a log, in order. *)
Definition replay (key : string) (l : list effect) (start : option string)
    : option string :=
  foldl (λ held e,
           match e with
           | SetItem k v => if String.eqb k key then Some v else held
           | RemoveItem k => if String.eqb k key then None else held
           | _ => held
           end) start l.

(** An effect that neither removes the credential nor stores an empty one. *)
Definition keeps_credential (e : effect) : Prop :=
  match e with
  | SetItem k v => k = "openai-api-key" → v ≠ EmptyString
  | RemoveItem k => k ≠ "openai-api-key"
  | _ => True
  end.

(** [m'] comes after [m]: the log grew, the store followed the writes it
    grew by, and those writes spared the credential. *)
Definition extends (m m' : machine) : Prop :=
  ∃ new, log m' = log m ++ new ∧
    (∀ key, localStorage m' !! key = replay key new (localStorage m !! key)) ∧
    ((∀ due fd, timeoutId m = Some (due, fd) → is_string (fd !! "apiKey")) →
     Forall keeps_credential new).

(** The credential is a string, in the form and in a pending snapshot. *)
Definition pending_ok (m : machine) : Prop :=
  is_string (values m !! "apiKey") ∧
  ∀ due fd, timeoutId m = Some (due, fd) → is_string (fd !! "apiKey").

(** The dependencies of the API-key effect differ between two renders. *)
Definition key_changed (m m' : machine) : bool :=
  negb (Object_is (values m !! "apiKey") (values m' !! "apiKey")
        && Bool.eqb (mounted m) (mounted m')).

(** Time elapsed since the credential in the form last changed (the mount,
    which brings the stored credential in, counts as a change). *)
Definition quiet_step (e : event) (m : machine) (q : nat) : nat :=
  match e with
  | Advance ms => q + ms
  | _ => if key_changed m (step e m) then 0 else q
  end.

Fixpoint quiet_from (evs : list event) (m : machine) (q : nat) : nat :=
  match evs with
  | [] => q
  | e :: rest => quiet_from rest (step e m) (quiet_step e m q)
  end.

Definition quiet (store : gmap string string) (evs : list event) : nat :=
  quiet_from evs (initial store) 0.

(** The effects by which the log of [m'] exceeds the one of [m]. *)
Definition added (m m' : machine) : list effect := drop (length (log m)) (log m').

(** A pending fetch timer holds the credential of the form, which is long
    enough, and was armed when the credential last changed. *)
Definition fetch_ok (q : nat) (m : machine) : Prop :=
  is_string (values m !! "apiKey") ∧
  ∀ due k, fetchTimer m = Some (due, k) →
    mounted m = true ∧ values m !! "apiKey" = Some k ∧
    (∃ s, k = JStr s ∧ 30 ≤ String.length s) ∧ due + q = now m + 500.

(** Sample data. *)
Definition key_a : string := "sk-proj-0123456789abcdefghijklmnopqrstuv".
Definition key_b : string := "sk-proj-9876543210abcdefghijklmnopqrstuv".

Definition sample_form : FormValues :=
  {| apiKey := "sk-test"; model := "gpt-4o-mini"; aiName := "Ava";
     companyName := "Acme"; industry := "Tools"; targetAudience := "Builders";
     challenges := "Churn"; product := "Anvils"; objective := "Book a demo";
     objections := "Price"; additionalInfo := Some EmptyString |}.

Definition acme_form : FormValues :=
  {| apiKey := "sk-typed"; model := "gpt-4o-mini"; aiName := EmptyString;
     companyName := "Acme"; industry := EmptyString;
     targetAudience := EmptyString; challenges := EmptyString;
     product := EmptyString; objective := EmptyString; objections := EmptyString;
     additionalInfo := Some EmptyString |}.

Definition stored_form : FormValues :=
  {| apiKey := "sk-old"; model := "gpt-4o-mini"; aiName := EmptyString;
     companyName := EmptyString; industry := EmptyString;
     targetAudience := EmptyString; challenges := EmptyString;
     product := EmptyString; objective := EmptyString; objections := EmptyString;
     additionalInfo := Some EmptyString |}.

Definition sample_item (n : nat) : PromptHistory.PromptHistoryItem :=
  {| PromptHistory.id := index_key n;
     PromptHistory.content := "prompt " +:+ index_key n;
     PromptHistory.timestamp := Z.of_nat n;
     PromptHistory.formData := sample_form |}.

Definition sample_history : list PromptHistory.PromptHistoryItem :=
  List.map sample_item (seq 0 25).

Definition sample_app : GeneratedPrompt.state :=
  {| GeneratedPrompt.container := PromptContainer.initial;
     GeneratedPrompt.history := sample_history;
     GeneratedPrompt.view := page 1 |}.

(* ===================================================================== *)
(** ** Further parts of the components                                    *)
(* ===================================================================== *)

(** *** The title of a history row (prompt-history.tsx, lines 79-81) *)

Module HistoryRow.

(** [s.split('\n')[0]]. *)
Fixpoint first_line (s : string) : string :=
  match s with
  | EmptyString => EmptyString
  | String c r =>
    if Ascii.eqb c "010" then EmptyString else String c (first_line r)
  end.

(** [{item.content.split('\n')[0].substring(0, 100)}...] *)
Definition title (item : PromptHistory.PromptHistoryItem) : string :=
  String.substring 0 100 (first_line (PromptHistory.content item)) +:+ "...".

(** The two page buttons. *)
Inductive button : Type := Previous | Next.

(** A click on a page button; a button that is absent or disabled leaves
    the page as it is. *)
Definition click (history : list PromptHistory.PromptHistoryItem)
    (s : PromptHistory.state) (b : button) : PromptHistory.state :=
  match b with
  | Previous => default s (PromptHistory.click_previous history s)
  | Next => default s (PromptHistory.click_next history s)
  end.

End HistoryRow.

(** *** The result and its storage entry (container, lines 19-25, 60-66) *)

Module ResultStorage.

Definition STORAGE_KEY : string := "sales-prompt-result".

Record machine : Type := {
  container : PromptContainer.state;
  localStorage : gmap string string;
}.

Definition initial (store : gmap string string) : machine :=
  {| container := PromptContainer.initial; localStorage := store |}.

(** The effect on [result] (lines 60-66). *)
Definition persist_effect (m : machine) : machine :=
  match PromptContainer.result (container m) with
  | Some r =>
    if truthy_string r
    then {| container := container m;
            localStorage := <[STORAGE_KEY := r]> (localStorage m) |}
    else {| container := container m;
            localStorage := delete STORAGE_KEY (localStorage m) |}
  | None =>
    {| container := container m;
       localStorage := delete STORAGE_KEY (localStorage m) |}
  end.

(** A render after a state change: the effect runs again when [result]
    differs. *)
Definition rendered (before m : machine) : machine :=
  if decide (PromptContainer.result (container before)
             = PromptContainer.result (container m))
  then m else persist_effect m.

Definition update (f : PromptContainer.state → PromptContainer.state)
    (m : machine) : machine :=
  rendered m {| container := f (container m); localStorage := localStorage m |}.

(** The first effects, in the order they are declared: the saved result
    is read and [setResult] is called with it (lines 20-25), then the
    effect on [result] runs with the initial [result]; the state change
    of the first is rendered after both. *)
Definition mount (m : machine) : machine :=
  let savedResult := localStorage m !! STORAGE_KEY in
  let m1 := persist_effect m in
  match savedResult with
  | Some r =>
    if truthy_string r then update (PromptContainer.handleRestorePrompt r) m1
    else m1
  | None => m1
  end.

Inductive event : Type :=
| Submit (form : PromptForm.machine)       (* a click on the form's button *)
| Settled (r : PromptContainer.generated)  (* the generator answers *)
| RestoreFormData (formData : FormValues)
| RestorePrompt (prompt : string)
| ClearPrompt.

(** An answer arrives only for a call in flight, which is exactly when
    [isLoading] is up. *)
Definition step (m : machine) (e : event) : machine :=
  match e with
  | Submit form =>
    match PromptForm.click_submit PromptContainer.handleSubmit_begin
            (PromptContainer.isLoading (container m)) form (container m) with
    | Some (_, c') => update (λ _, c') m
    | None => m
    end
  | Settled r =>
    if PromptContainer.isLoading (container m)
    then update (PromptContainer.handleSubmit_settle r) m
    else m
  | RestoreFormData formData =>
    update (PromptContainer.handleRestoreFormData formData) m
  | RestorePrompt prompt => update (PromptContainer.handleRestorePrompt prompt) m
  | ClearPrompt => update PromptContainer.handleClearPrompt m
  end.

Definition run (evs : list event) (store : gmap string string) : machine :=
  foldl step (mount (initial store)) evs.

End ResultStorage.

(** *** Notions for the further statements *)

(** A field holds what [formSchema] asks of it. *)
Definition field_ok (f : field) (input : gmap string json) : bool :=
  match f, input !! name_of f with
  | F_additionalInfo, None => true
  | F_additionalInfo, Some (JStr _) => true
  | F_additionalInfo, Some _ => false
  | _, Some (JStr s) => truthy_string s
  | _, _ => false
  end.

Definition all_fields : list field :=
  [ F_apiKey; F_model; F_aiName; F_companyName; F_industry; F_targetAudience;
    F_challenges; F_product; F_objective; F_objections; F_additionalInfo ].

Definition issues_of (r : SafeParse) : list (string * string) :=
  match r with
  | Success _ => []
  | Failure issues => issues
  end.

(** The text [save_timeout] stores under the form-data key. *)
Definition snapshot_of (formData : gmap string json) : string :=
  stringify_object
    [ ("model", formData !! "model");
      ("aiName", formData !! "aiName");
      ("companyName", formData !! "companyName");
      ("industry", formData !! "industry");
      ("targetAudience", formData !! "targetAudience");
      ("challenges", formData !! "challenges");
      ("product", formData !! "product");
      ("objective", formData !! "objective");
      ("objections", formData !! "objections");
      ("additionalInfo", formData !! "additionalInfo") ].

(** The names under which a snapshot may hold a member. *)
Definition snapshot_names : list string :=
  [ "model"; "aiName"; "companyName"; "industry"; "targetAudience";
    "challenges"; "product"; "objective"; "objections"; "additionalInfo" ].

(** The storage key an effect writes or removes, if it is one. *)
Definition storage_key (e : effect) : option string :=
  match e with
  | SetItem k _ => Some k
  | RemoveItem k => Some k
  | _ => None
  end.

(** The form the reset leaves, for the credential [k]. *)
Definition cleared_form (k : string) : FormValues :=
  {| apiKey := k; model := "gpt-4o-mini"; aiName := EmptyString;
     companyName := EmptyString; industry := EmptyString;
     targetAudience := EmptyString; challenges := EmptyString;
     product := EmptyString; objective := EmptyString; objections := EmptyString;
     additionalInfo := Some EmptyString |}.

(** The model list begins with the two defaults and names them nowhere
    else. *)
Definition defaults_first (l : list OpenAI.Model) : Prop :=
  ∃ rest, l = {| OpenAI.id := "gpt-4o-mini" |} :: {| OpenAI.id := "gpt-4o" |} :: rest ∧
          Forall (λ x, includes defaultModels (OpenAI.id x) = false) rest.

(** What the store holds for a displayed result. *)
Definition stored_result (r : option string) : option string :=
  match r with
  | Some s => if truthy_string s then Some s else None
  | None => None
  end.

Definition is_settled (e : ResultStorage.event) : bool :=
  match e with
  | ResultStorage.Settled _ => true
  | _ => false
  end.

(** The page [p] of a history, by position. *)
Definition nth_page (history : list PromptHistory.PromptHistoryItem) (p : nat)
    : list PromptHistory.PromptHistoryItem :=
  PromptHistory.currentItems history (page (Z.of_nat p)).

(** The issues [formSchema] raises for one field. *)
Definition report (input : gmap string json) (f : field) : list (string * string) :=
  match f with
  | F_apiKey => string_min1 "apiKey" "OpenAI API key is required" (input !! "apiKey")
  | F_model => string_min1 "model" "Model selection is required" (input !! "model")
  | F_aiName => string_min1 "aiName" "AI name is required" (input !! "aiName")
  | F_companyName =>
    string_min1 "companyName" "Company name is required" (input !! "companyName")
  | F_industry => string_min1 "industry" "Industry is required" (input !! "industry")
  | F_targetAudience =>
    string_min1 "targetAudience" "Target audience is required"
      (input !! "targetAudience")
  | F_challenges =>
    string_min1 "challenges" "Challenges are required" (input !! "challenges")
  | F_product =>
    string_min1 "product" "Product/service is required" (input !! "product")
  | F_objective =>
    string_min1 "objective" "Call objective is required" (input !! "objective")
  | F_objections =>
    string_min1 "objections" "Common objections are required"
      (input !! "objections")
  | F_additionalInfo => string_optional "additionalInfo" (input !! "additionalInfo")
  end.

(** An effect that stores a snapshot stores one without the credential. *)
Definition snapshot_ok (e : effect) : Prop :=
  match e with
  | SetItem k text =>
    k = STORAGE_KEY →
    ∃ ms, text = JSON.stringify (JObj ms) ∧
          Forall (λ kv : string * json, kv.1 ∈ snapshot_names) ms
  | _ => True
  end.

(** An effect on the store is one on the two keys of the form. *)
Definition own_key (e : effect) : Prop :=
  ∀ k, storage_key e = Some k → k = STORAGE_KEY ∨ k = "openai-api-key".

(** The values after the entries of a snapshot were restored, and the
    value the entries give a name (the last one listed). *)
Definition restore_values (V : gmap string json) (entries : list (string * json))
    : gmap string json :=
  foldl (λ V kv, if String.eqb kv.1 "apiKey" then V else <[kv.1 := kv.2]> V)
    V entries.

Fixpoint last_entry (key : string) (entries : list (string * json)) : option json :=
  match entries with
  | [] => None
  | kv :: rest =>
    match last_entry key rest with
    | Some v => Some v
    | None => if String.eqb kv.1 key then Some kv.2 else None
    end
  end.

(** The credential step of the load. *)
Definition restore_credential (saved : option string) (V : gmap string json)
    : gmap string json :=
  match saved with
  | Some k => if truthy_string k then <["apiKey" := JStr k]> V else V
  | None => V
  end.

(** The store mirrors the result on display and leaves the other keys as
    they were in [store]. *)
Definition mirrors (store : gmap string string) (m : ResultStorage.machine) : Prop :=
  ResultStorage.localStorage m !! ResultStorage.STORAGE_KEY
    = stored_result (PromptContainer.result (ResultStorage.container m)) ∧
  ∀ key, key ≠ ResultStorage.STORAGE_KEY →
    ResultStorage.localStorage m !! key = store !! key.

(** The calls of the generator so far, and whether one more may start. *)
Definition calls (m : ResultStorage.machine) : nat :=
  length (PromptContainer.generator_calls
            (PromptContainer.log (ResultStorage.container m))).

Definition idle (m : ResultStorage.machine) : nat :=
  if PromptContainer.isLoading (ResultStorage.container m) then 0 else 1.

(* ===================================================================== *)
(** ** The codec: what is written is read back, and reading always ends  *)
(* ===================================================================== *)

Module Codec.

#[local] Arguments String.append : simpl nomatch.

(** *** The codec on small inputs *)

Example parse_array :
  parse " [1, 2.5e3 , true, {}] "
  = POk (JArr [JNum "1"; JNum "2.5e3"; JBool true; JObj []]) EmptyString.
Proof. reflexivity. Qed.

Example parse_leading_zero : parse "01" = PSyntaxError.
Proof. reflexivity. Qed.

Example parse_trailing_comma : parse "[1,]" = PSyntaxError.
Proof. reflexivity. Qed.

Example parse_unfinished_object : parse "{" = PSyntaxError.
Proof. reflexivity. Qed.

Example parse_words : parse "not json" = PSyntaxError.
Proof. reflexivity. Qed.

Example parse_unicode_escape :
  parse (String dquote (String bslash ("u0041" +:+ String dquote EmptyString)))
  = POk (JStr "A") EmptyString.
Proof. reflexivity. Qed.

Example stringify_newline :
  stringify (JStr (String "010" "x"))
  = String dquote (String bslash ("nx" +:+ String dquote EmptyString)).
Proof. reflexivity. Qed.

Example stringify_nested :
  parse (stringify (JObj [("a", JArr [JNull; JNum "1"]); ("b", JBool false)]))
  = POk (JObj [("a", JArr [JNull; JNum "1"]); ("b", JBool false)]) EmptyString.
Proof. reflexivity. Qed.

Example entries_last_wins :
  Object_entries (JObj [("a", JNum "1"); ("b", JNum "2"); ("a", JNum "3")])
  = Some [("a", JNum "3"); ("b", JNum "2")].
Proof. reflexivity. Qed.

(** *** Strings *)

Lemma string_app_assoc (a b c : string) : (a +:+ b) +:+ c = a +:+ (b +:+ c).
Proof. induction a as [|x a IH]; cbn [String.append]; [reflexivity | by f_equal]. Qed.

Lemma string_length_app (a b : string) :
  String.length (a +:+ b) = String.length a + String.length b.
Proof.
  induction a as [|x a IH]; simpl; [reflexivity | by rewrite IH].
Qed.

Lemma parse_quote_char c t :
  parse_string_body (quote_char c +:+ t) =
  match parse_string_body t with
  | Some (x, rest) => Some (String c x, rest)
  | None => None
  end.
Proof. destruct c as [[] [] [] [] [] [] [] []]; reflexivity. Qed.

Lemma parse_quote_body s rest :
  parse_string_body (quote_body s +:+ String dquote rest) = Some (s, rest).
Proof.
  induction s as [|c s IH]; [reflexivity|].
  cbn [quote_body]. by rewrite string_app_assoc, parse_quote_char, IH.
Qed.

Lemma quote_app s rest :
  quote s +:+ rest = String dquote (quote_body s +:+ String dquote rest).
Proof. unfold quote. cbn [String.append]. by rewrite string_app_assoc. Qed.

Lemma parse_value_quote n s rest :
  parse_value (S n) (quote s +:+ rest) = POk (JStr s) rest.
Proof.
  rewrite quote_app. cbn [parse_value]. unfold value_body.
  cbn [skip_ws is_ws dquote Ascii.eqb Bool.eqb orb].
  fold dquote. by rewrite parse_quote_body.
Qed.

Lemma stringify_JObj ms :
  stringify (JObj ms) = "{" +:+ join "," (List.map member ms) +:+ "}".
Proof. reflexivity. Qed.

Lemma parse_member_head n k v rest :
  parse_members (S (S n)) (member (str (k, v)) +:+ rest) =
  match skip_ws rest with
  | String c r =>
    if Ascii.eqb c "," then pmap (cons (k, JStr v)) (parse_members (S n) r)
    else if Ascii.eqb c "}" then POk [(k, JStr v)] r
    else PSyntaxError
  | EmptyString => PSyntaxError
  end.
Proof.
  unfold member, str. cbn [fst snd stringify].
  rewrite !string_app_assoc, quote_app.
  change (parse_members (S (S n))) with
    (members_body (parse_value (S n)) (parse_members (S n))).
  unfold members_body.
  cbn [skip_ws is_ws dquote Ascii.eqb Bool.eqb orb]. fold dquote.
  rewrite parse_quote_body.
  cbn [String.append skip_ws is_ws dquote Ascii.eqb Bool.eqb orb].
  by rewrite parse_value_quote.
Qed.

Lemma join_cons2 sep x y l :
  join sep (x :: y :: l) = x +:+ sep +:+ join sep (y :: l).
Proof. reflexivity. Qed.

Lemma parse_members_strings l : ∀ n rest,
  l ≠ [] → length l ≤ n →
  parse_members (S n) (join "," (List.map member (List.map str l)) +:+ String "}" rest)
  = POk (List.map str l) rest.
Proof.
  induction l as [|[k v] l IH]; intros n rest Hne Hlen; [done|].
  destruct n as [|n]; [simpl in Hlen; lia|].
  destruct l as [|kv l].
  - cbn [List.map join]. by rewrite parse_member_head.
  - cbn [List.map]. rewrite join_cons2, !string_app_assoc, parse_member_head.
    cbn [String.append skip_ws is_ws Ascii.eqb Bool.eqb orb].
    change (member (str kv) :: List.map member (List.map str l))
      with (List.map member (List.map str (kv :: l))).
    rewrite IH; [reflexivity | done | simpl in *; lia].
Qed.

Lemma length_members l :
  length l ≤ String.length (join "," (List.map member (List.map str l))).
Proof.
  induction l as [|kv [|kv' l] IH]; [simpl; lia | |].
  - cbn [List.map join]. unfold member, quote.
    cbn [String.append String.length length]. lia.
  - cbn [List.map] in *. rewrite join_cons2, !string_length_app.
    cbn [length] in *. unfold member at 1, quote.
    cbn [String.append String.length]. lia.
Qed.

Lemma value_body_object elements members t :
  value_body elements members (String "{" (String dquote t))
  = pmap JObj (members (String dquote t)).
Proof. reflexivity. Qed.

(** [JSON.parse] reads back an object of strings that [JSON.stringify]
    wrote. *)
Lemma parse_stringify_strings l :
  parse (stringify (JObj (List.map str l))) = POk (JObj (List.map str l)) EmptyString.
Proof.
  unfold parse. rewrite stringify_JObj.
  destruct l as [|kv l]; [reflexivity|].
  set (ms := List.map str (kv :: l)).
  set (body := join "," (List.map member ms)).
  assert (Hb : ∃ t, body = String dquote t).
  { subst body ms. destruct kv as [k v], l; cbn [List.map]; [|rewrite join_cons2];
      unfold member, quote; cbn [join String.append]; eauto. }
  destruct Hb as [t Ht].
  assert (Hlen : length (kv :: l) ≤ String.length body) by apply length_members.
  cbn [String.append String.length].
  replace (2 * S (String.length (body +:+ "}")) + 1)
    with (S (S (S (2 * String.length (body +:+ "}"))))) by lia.
  cbn [parse_value]. rewrite Ht.
  change (String dquote t +:+ "}") with (String dquote (t +:+ "}")).
  rewrite value_body_object.
  change (String dquote (t +:+ "}")) with (String dquote t +:+ "}").
  rewrite <- Ht. subst body ms.
  change (String.append ?a "}") with (a +:+ String "}" EmptyString).
  rewrite parse_members_strings; [reflexivity | done |].
  rewrite string_length_app. cbn [length String.length] in *. lia.
Qed.

Lemma skip_ws_length s : String.length (skip_ws s) ≤ String.length s.
Proof.
  induction s as [|c s IH]; simpl; [lia|].
  destruct (is_ws c); simpl; lia.
Qed.

Lemma skip_ws_cons s c r :
  skip_ws s = String c r → String.length r < String.length s.
Proof. intros H. pose proof (skip_ws_length s) as L. rewrite H in L. simpl in L. lia. Qed.

Lemma parse_string_body_length n : ∀ s t r,
  String.length s ≤ n → parse_string_body s = Some (t, r) →
  String.length r < String.length s.
Proof.
  induction n as [|n IH]; intros s t r Hn H.
  - destruct s; [done | simpl in Hn; lia].
  - destruct s as [|c s]; [done|]. cbn [parse_string_body] in H.
    repeat (case_match; simplify_eq/=; try lia);
      repeat match goal with
      | E : parse_string_body ?x = Some _ |- _ =>
        apply IH in E; [|simpl in *; lia]
      end; simpl in *; lia.
Qed.

Lemma span_digits_length s : ∀ d r,
  span_digits s = (d, r) → String.length r ≤ String.length s.
Proof.
  induction s as [|c s IH]; intros d r H; simpl in H; [by simplify_eq/=|].
  destruct (is_digit c); [|by simplify_eq/=].
  destruct (span_digits s) as [d' r'] eqn:E. simplify_eq/=.
  specialize (IH _ _ eq_refl). lia.
Qed.

Lemma digits1_length s d r :
  digits1 s = Some (d, r) → String.length r ≤ String.length s.
Proof.
  unfold digits1. destruct (span_digits s) as [d' r'] eqn:E.
  apply span_digits_length in E. destruct d'; intros; simplify_eq/=; lia.
Qed.

Lemma parse_number_length s l r :
  parse_number s = Some (l, r) → String.length r ≤ String.length s.
Proof.
  unfold parse_number. intros H.
  repeat (case_match; simplify_eq/=; try lia);
    repeat match goal with
    | E : span_digits _ = _ |- _ => apply span_digits_length in E
    | E : digits1 _ = _ |- _ => apply digits1_length in E
    end; simpl in *; lia.
Qed.

Lemma strip_prefix_length p : ∀ s r,
  strip_prefix p s = Some r → String.length r ≤ String.length s.
Proof.
  induction p as [|a p IH]; intros s r H; simpl in H.
  - destruct s; simplify_eq/=; lia.
  - destruct s as [|b s]; [done|]. destruct (Ascii.eqb a b); [|done].
    apply IH in H. simpl. lia.
Qed.

Lemma parse_word_length w v s x r :
  parse_word w v s = POk x r → String.length r ≤ String.length s.
Proof.
  unfold parse_word. destruct (strip_prefix w s) eqn:E; [|done].
  intros; simplify_eq. by eapply strip_prefix_length.
Qed.

Lemma parse_word_fuel w v s : parse_word w v s ≠ PFuel.
Proof. unfold parse_word. by destruct (strip_prefix w s). Qed.

Lemma pmap_sound {A B} (f : A → B) (p : presult A) s :
  (p ≠ PFuel ∧ ∀ a r, p = POk a r → String.length r ≤ s) →
  pmap f p ≠ PFuel ∧ ∀ b r, pmap f p = POk b r → String.length r ≤ s.
Proof.
  intros [H1 H2].
  destruct p; simpl; split; try done; intros; simplify_eq; eauto.
Qed.

Lemma value_body_sound elements members k :
  sound elements k → sound members k →
  sound (value_body elements members) (S k).
Proof.
  intros He Hm s Hs. unfold value_body.
  destruct (skip_ws s) as [|c r] eqn:Es; [done|].
  pose proof (skip_ws_cons _ _ _ Es) as Lr.
  assert (Ls : String.length (String c r) ≤ String.length s)
    by (rewrite <- Es; apply skip_ws_length).
  clear Es.
  repeat case_match;
    repeat match goal with
    | E : skip_ws _ = String _ _ |- _ => apply skip_ws_cons in E
    | E : parse_string_body _ = Some _ |- _ =>
      eapply parse_string_body_length in E; [|reflexivity]
    | E : parse_number _ = Some _ |- _ => apply parse_number_length in E
    end;
    try apply pmap_sound;
    lazymatch goal with
    | |- members ?x ≠ PFuel ∧ _ =>
      destruct (Hm x) as [F1 F2]; [lia|]; split; [done|];
      intros a0 r0 E0; apply F2 in E0; lia
    | |- elements ?x ≠ PFuel ∧ _ =>
      destruct (He x) as [F1 F2]; [lia|]; split; [done|];
      intros a0 r0 E0; apply F2 in E0; lia
    | |- parse_word _ _ _ ≠ PFuel ∧ _ =>
      split; [apply parse_word_fuel|];
      intros a0 r0 E0; apply parse_word_length in E0; lia
    | |- _ => split; [done|]; intros; simplify_eq; simpl in *; lia
    end.
Qed.

Lemma elements_body_sound value elements k :
  sound value (S k) → sound elements k →
  sound (elements_body value elements) (S k).
Proof.
  intros Hv He s Hs. unfold elements_body.
  destruct (Hv s Hs) as [V1 V2].
  destruct (value s) as [v r| |] eqn:Ev; [|done|done].
  specialize (V2 _ _ eq_refl).
  destruct (skip_ws r) as [|c r'] eqn:Er; [done|].
  apply skip_ws_cons in Er.
  repeat case_match; try done.
  - destruct (He r') as [F1 F2]; [lia|]. apply pmap_sound. split; [done|].
    intros a r'' E. apply F2 in E. lia.
  - split; [done|]. intros; simplify_eq. lia.
Qed.

Lemma members_body_sound value members k :
  sound value (S k) → sound members k →
  sound (members_body value members) (S k).
Proof.
  intros Hv Hm s Hs. unfold members_body.
  destruct (skip_ws s) as [|q r] eqn:Es; [done|].
  apply skip_ws_cons in Es.
  destruct (Ascii.eqb q dquote); [|done].
  destruct (parse_string_body r) as [[key r1]|] eqn:Ek; [|done].
  eapply parse_string_body_length in Ek; [|reflexivity].
  destruct (skip_ws r1) as [|c r2] eqn:E1; [done|].
  apply skip_ws_cons in E1.
  destruct (Ascii.eqb c ":"); [|done].
  destruct (Hv r2) as [V1 V2]; [lia|].
  destruct (value r2) as [v r3| |] eqn:Ev; [|done|done].
  specialize (V2 _ _ eq_refl).
  destruct (skip_ws r3) as [|c' r4] eqn:E3; [done|].
  apply skip_ws_cons in E3.
  repeat case_match; try done.
  - destruct (Hm r4) as [F1 F2]; [lia|]. apply pmap_sound. split; [done|].
    intros a r'' E. apply F2 in E. lia.
  - split; [done|]. intros; simplify_eq. lia.
Qed.

Lemma sound_0 {A} (p : string → presult A) : sound p 0.
Proof. intros s Hs. lia. Qed.

Lemma levels_sound k :
  (∀ n, 2 * k ≤ n → sound (parse_elements n) k) ∧
  (∀ n, 2 * k ≤ n → sound (parse_members n) k).
Proof.
  induction k as [|k [IHe IHm]]; [split; intros; apply sound_0|].
  assert (Hv : ∀ n, 2 * k + 1 ≤ n → sound (parse_value n) (S k)).
  { intros n Hn. destruct n as [|n]; [lia|]. cbn [parse_value].
    apply value_body_sound; [apply IHe | apply IHm]; lia. }
  split; intros n Hn; (destruct n as [|n]; [lia|]).
  - cbn [parse_elements]. apply elements_body_sound; [apply Hv | apply IHe]; lia.
  - cbn [parse_members]. apply members_body_sound; [apply Hv | apply IHm]; lia.
Qed.

Lemma parse_value_sound k n : 2 * k + 1 ≤ n → sound (parse_value n) (S k).
Proof.
  intros Hn. destruct n as [|n]; [lia|]. cbn [parse_value].
  destruct (levels_sound k) as [He Hm].
  apply value_body_sound; [apply He | apply Hm]; lia.
Qed.

(** [JSON.parse] always answers: a value or a [SyntaxError]. *)
Lemma parse_total s : parse s ≠ PFuel.
Proof.
  unfold parse.
  destruct (parse_value_sound (String.length s) (2 * String.length s + 1)
              (le_n _) s) as [H _]; [lia|].
  destruct (parse_value (2 * String.length s + 1) s) as [v r| |]; [|done|done].
  by destruct (skip_ws r).
Qed.

End Codec.

(* ===================================================================== *)
(** ** The pages of the history                                          *)
(* ===================================================================== *)

Module HistoryFacts.
Import PromptHistory.

Example second_page_of_the_sample :
  id <$> currentItems sample_history (page 1)
  = ["10"; "11"; "12"; "13"; "14"; "15"; "16"; "17"; "18"; "19"].
Proof. reflexivity. Qed.

Example third_page_of_the_sample :
  id <$> currentItems sample_history (page 2) = ["20"; "21"; "22"; "23"; "24"].
Proof. reflexivity. Qed.

Example next_from_the_second_page :
  currentPage <$> click_next sample_history (page 1) = Some 2%Z.
Proof. reflexivity. Qed.

Lemma slice_lookup {A} (l : list A) (start end_ : Z) (i : nat) :
  (0 ≤ start)%Z → (0 ≤ end_)%Z →
  slice l start end_ !! i =
  if decide (Z.to_nat start + i < Z.to_nat end_) then l !! (Z.to_nat start + i) else None.
Proof.
  intros Hs He. unfold slice.
  destruct (Z.ltb_spec start 0); [lia|]. destruct (Z.ltb_spec end_ 0); [lia|].
  set (len := Z.of_nat (length l)).
  destruct (decide (Z.to_nat start + i < Z.to_nat end_)) as [Hlt|Hge].
  - destruct (decide (Z.to_nat start + i < length l)) as [Hin|Hout].
    + rewrite lookup_take_lt by lia. rewrite lookup_drop. f_equal. lia.
    + rewrite (lookup_ge_None_2 l (Z.to_nat start + i)) by lia.
      apply lookup_ge_None_2. rewrite length_take, length_drop. lia.
  - apply lookup_ge_None_2. rewrite length_take, length_drop. lia.
Qed.

Lemma currentItems_lookup history s (i : nat) :
  (0 ≤ currentPage s)%Z →
  currentItems history s !! i =
  if decide (i < 10) then history !! (Z.to_nat (currentPage s) * 10 + i) else None.
Proof.
  intros Hp. unfold currentItems, endIndex, startIndex, ITEMS_PER_PAGE.
  rewrite slice_lookup by lia.
  destruct (decide (i < 10)), (decide (_ < _)); try lia; [f_equal; lia | done].
Qed.

(** C6: with 25 items and pages of 10 there are three pages; page [p]
    shows, in the order of the list, the items [p*10] to
    [min (p*10+9) 24] (page 0 the first ten, page 2 the items 20 to 24);
    there is no click on "Next" on the last page nor on "Previous" on
    page 0, and a click that exists moves by one page within the range. *)
Theorem C6_pages_of_25_items (history : list PromptHistoryItem) :
  length history = 25 →
  totalPages history = 3%Z ∧
  (∀ (p i : nat) item, p < 3 →
     currentItems history (page (Z.of_nat p)) !! i = Some item ↔
     p * 10 + i ≤ Nat.min (p * 10 + 9) 24 ∧ history !! (p * 10 + i) = Some item) ∧
  currentItems history (page 0) = take 10 history ∧
  currentItems history (page 2) = drop 20 history ∧
  length (currentItems history (page 2)) = 5 ∧
  click_next history (page 2) = None ∧
  click_previous history (page 0) = None ∧
  (∀ s s', (0 ≤ currentPage s < 3)%Z →
     (click_next history s = Some s' →
        currentPage s' = (currentPage s + 1)%Z ∧ (currentPage s' < 3)%Z) ∧
     (click_previous history s = Some s' →
        currentPage s' = (currentPage s - 1)%Z ∧ (0 ≤ currentPage s')%Z)).
Proof.
  intros Hlen.
  assert (Ht : totalPages history = 3%Z)
    by (unfold totalPages; rewrite Hlen; reflexivity).
  split; [done|]. split.
  { intros p i item Hp. rewrite currentItems_lookup by (cbn; lia).
    cbn [currentPage page]. rewrite Nat2Z.id.
    destruct (decide (i < 10)) as [Hi|Hi].
    - split; [|by intros [_ ?]]. intros H. split; [|done].
      apply lookup_lt_Some in H. lia.
    - split; [done|]. intros [? _]. lia. }
  split.
  { unfold currentItems, slice, endIndex, startIndex, ITEMS_PER_PAGE.
    rewrite Hlen. reflexivity. }
  split.
  { unfold currentItems, slice, endIndex, startIndex, ITEMS_PER_PAGE.
    rewrite Hlen. change (take 5 (drop 20 history) = drop 20 history).
    apply take_ge. rewrite length_drop. lia. }
  split.
  { unfold currentItems, slice, endIndex, startIndex, ITEMS_PER_PAGE.
    rewrite Hlen. change (length (take 5 (drop 20 history)) = 5).
    rewrite length_take, length_drop. lia. }
  split; [unfold click_next; rewrite Ht; reflexivity|].
  split; [unfold click_previous; rewrite Ht; reflexivity|].
  intros s s' Hs. unfold click_next, click_previous. rewrite Ht. split.
  - destruct (Z.eqb_spec (currentPage s) (3 - 1)); cbn; [done|].
    intros; simplify_eq; cbn. lia.
  - destruct (Z.eqb_spec (currentPage s) 0); cbn; [done|].
    intros; simplify_eq; cbn. lia.
Qed.

End HistoryFacts.

(* ===================================================================== *)
(** ** The form: load, submit, reset, model list                         *)
(* ===================================================================== *)

(** *** The load effect *)

Lemma restore_entry_frame m kv :
  let m' := restore_entry m kv in
  values m' !! "apiKey" = values m !! "apiKey" ∧
  mounted m' = mounted m ∧ localStorage m' = localStorage m ∧ log m' = log m ∧
  now m' = now m ∧ fetchTimer m' = fetchTimer m ∧ timeoutId m' = timeoutId m ∧
  models m' = models m ∧ inflight m' = inflight m.
Proof.
  unfold restore_entry. destruct (String.eqb kv.1 "apiKey") eqn:E; cbn; [done|].
  apply String.eqb_neq in E. by rewrite lookup_insert_ne.
Qed.

Lemma restore_entries_frame entries : ∀ m,
  let m' := foldl restore_entry m entries in
  values m' !! "apiKey" = values m !! "apiKey" ∧
  mounted m' = mounted m ∧ localStorage m' = localStorage m ∧ log m' = log m ∧
  now m' = now m ∧ fetchTimer m' = fetchTimer m ∧ timeoutId m' = timeoutId m ∧
  models m' = models m ∧ inflight m' = inflight m.
Proof.
  induction entries as [|kv entries IH]; intros m; cbn [foldl]; [done|].
  destruct (IH (restore_entry m kv)) as (?&?&?&?&?&?&?&?&?).
  destruct (restore_entry_frame m kv) as (?&?&?&?&?&?&?&?&?).
  cbn zeta in *. repeat split; congruence.
Qed.



(** *** Submitting *)

Lemma string_min1_string name message s :
  string_min1 name message (Some (JStr s)) =
  if truthy_string s then [] else [(name, message)].
Proof. reflexivity. Qed.

Lemma formSchema_to_object (v : FormValues) :
  if all_filled v
  then formSchema (to_object v) = Success v
  else ∃ issue issues, formSchema (to_object v) = Failure (issue :: issues).
Proof.
  destruct v as [k mo ai co ind ta ch pr obj objs add].
  unfold all_filled, required_fields, formSchema.
  cbn [apiKey model aiName companyName industry targetAudience challenges product
       objective objections additionalInfo forallb].
  assert (Hadd : string_optional "additionalInfo" (JStr <$> add) = []
                 ∧ as_optional_string (JStr <$> add) = add) by (by destruct add).
  replace (to_object _ !! "additionalInfo") with (JStr <$> add)
    by (destruct add; reflexivity).
  destruct Hadd as [-> ->].
  set (o := to_object _).
  assert (Ho : o !! "apiKey" = Some (JStr k) ∧ o !! "model" = Some (JStr mo) ∧
    o !! "aiName" = Some (JStr ai) ∧ o !! "companyName" = Some (JStr co) ∧
    o !! "industry" = Some (JStr ind) ∧ o !! "targetAudience" = Some (JStr ta) ∧
    o !! "challenges" = Some (JStr ch) ∧ o !! "product" = Some (JStr pr) ∧
    o !! "objective" = Some (JStr obj) ∧ o !! "objections" = Some (JStr objs))
    by (subst o; destruct add; repeat split; reflexivity).
  destruct Ho as (-> & -> & -> & -> & -> & -> & -> & -> & -> & ->). clear o.
  rewrite !string_min1_string.
  destruct (truthy_string k); [|cbn; eauto].
  destruct (truthy_string mo); [|cbn; eauto].
  destruct (truthy_string ai); [|cbn; eauto].
  destruct (truthy_string co); [|cbn; eauto].
  destruct (truthy_string ind); [|cbn; eauto].
  destruct (truthy_string ta); [|cbn; eauto].
  destruct (truthy_string ch); [|cbn; eauto].
  destruct (truthy_string pr); [|cbn; eauto].
  destruct (truthy_string obj); [|cbn; eauto].
  destruct (truthy_string objs); [|cbn; eauto].
  reflexivity.
Qed.

Lemma truthy_string_true s : truthy_string s = true ↔ s ≠ EmptyString.
Proof. by destruct s. Qed.

Lemma forallb_truthy l :
  (forallb truthy_string l = true ↔ Forall (λ s, s ≠ EmptyString) l) ∧
  (forallb truthy_string l = false ↔ Exists (λ s, s = EmptyString) l).
Proof.
  induction l as [|s l [IH1 IH2]]; cbn [forallb].
  - split; split; try done. intros H. inversion H.
  - rewrite Forall_cons, Exists_cons, andb_true_iff, andb_false_iff.
    rewrite IH1, IH2, truthy_string_true.
    split; [done|]. destruct s; cbn; split; intros [?|?]; auto; done.
Qed.

Lemma all_filled_true v :
  all_filled v = true ↔ Forall (λ s, s ≠ EmptyString) (required_fields v).
Proof. apply forallb_truthy. Qed.

Lemma all_filled_false v :
  all_filled v = false ↔ Exists (λ s, s = EmptyString) (required_fields v).
Proof. apply forallb_truthy. Qed.

(** C2: a click on the enabled submit button, over a form holding [v]:
    when every required field of [v] is non-empty the generator is called
    exactly once more, with [v]; when some required field is empty the
    container is left as it was (no call) and the form shows errors. *)
Theorem C2_submit_calls_the_generator_once_or_never
    (v : FormValues) (m : machine) (c : PromptContainer.state) :
  values m = to_object v →
  PromptContainer.isLoading c = false →
  ∃ m' c',
    click_submit PromptContainer.handleSubmit_begin
      (PromptContainer.isLoading c) m c = Some (m', c') ∧
    (Forall (λ s, s ≠ EmptyString) (required_fields v) →
       PromptContainer.generator_calls (PromptContainer.log c')
       = PromptContainer.generator_calls (PromptContainer.log c) ++ [v]
       ∧ errors m' = []) ∧
    (Exists (λ s, s = EmptyString) (required_fields v) →
       c' = c ∧ errors m' ≠ []).
Proof.
  intros Hv Hl. unfold click_submit, form_handleSubmit, handleSubmit.
  rewrite Hl, Hv. pose proof (formSchema_to_object v) as H.
  destruct (all_filled v) eqn:Ef.
  - rewrite H. eexists _, _. split; [reflexivity|]. split.
    + intros _. split; [|reflexivity].
      cbn. unfold PromptContainer.generator_calls. by rewrite omap_app.
    + intros E. apply all_filled_false in E. congruence.
  - destruct H as (i & rest & ->). eexists _, _. split; [reflexivity|]. split.
    + intros F. apply all_filled_true in F. congruence.
    + done.
Qed.

(** *** The model list, the reset, a failed generation *)

Lemma fetchModels_listed data m :
  models (fetchModels_settle (Listed data) m) =
  {| OpenAI.id := "gpt-4o-mini" |} :: {| OpenAI.id := "gpt-4o" |} ::
  List.filter (λ x, negb (includes defaultModels (OpenAI.id x))) data.
Proof. reflexivity. Qed.

Lemma fetchModels_failed message m :
  models (fetchModels_settle (Failed message) m) = models m ∧
  log (fetchModels_settle (Failed message) m) =
    log m ++ [ConsoleError ("Failed to fetch models: " +:+ message);
              Toast "Failed to load models"
                "Using default models only. Please check your API key." true].
Proof. split; [reflexivity|]. cbn. by rewrite <- app_assoc. Qed.

(** C3 at its failing input: a fetch that succeeded with one extra model,
    then a fetch that fails.  The toast announces the default models only,
    yet the list still holds the model fetched before. *)
Theorem C3_failed_fetch_keeps_the_fetched_list :
  let m :=
    run [ Mount; Input F_apiKey key_a; Advance 500; FetchTimeout;
          FetchSettled (Listed [ {| OpenAI.id := "gpt-3.5-turbo" |} ]);
          Input F_apiKey key_b; Advance 500; FetchTimeout;
          FetchSettled (Failed "401") ] (initial ∅) in
  models m = [ {| OpenAI.id := "gpt-4o-mini" |}; {| OpenAI.id := "gpt-4o" |};
               {| OpenAI.id := "gpt-3.5-turbo" |} ] ∧
  last (log m) = Some (Toast "Failed to load models"
                  "Using default models only. Please check your API key." true).
Proof. vm_compute. done. Qed.

(** C5: the reset leaves the credential field as it is and gives every
    other field its initial value (the empty text; for the model its
    default, gpt-4o-mini); it removes the form-data entry of the store and
    leaves every other entry, the credential among them. *)
Theorem C5_reset (m : machine) :
  let m' := resetForm m in
  values m' !! "apiKey" = values m !! "apiKey" ∧
  delete "apiKey" (values m') = delete "apiKey" defaultValues ∧
  (∀ f, values m' !! name_of f =
        match f with
        | F_apiKey => values m !! "apiKey"
        | F_model => Some (JStr "gpt-4o-mini")
        | _ => Some (JStr EmptyString)
        end) ∧
  localStorage m' = delete STORAGE_KEY (localStorage m) ∧
  localStorage m' !! STORAGE_KEY = None ∧
  localStorage m' !! "openai-api-key" = localStorage m !! "openai-api-key".
Proof.
  cbn zeta. unfold resetForm. cbn.
  destruct (values m !! "apiKey") as [k|] eqn:E.
  - repeat split; try reflexivity.
    + intros []; reflexivity.
    + apply lookup_delete_eq.
    + by apply lookup_delete_ne.
  - repeat split; try reflexivity.
    + intros []; reflexivity.
    + apply lookup_delete_eq.
    + by apply lookup_delete_ne.
Qed.

(** C7: when the generator call fails, the container logs the error,
    the result on display is the one from before the call, and the loading
    flag is down again. *)
Theorem C7_failed_generation (values : FormValues) (error : string)
    (c : PromptContainer.state) :
  let c' := PromptContainer.handleSubmit_settle (PromptContainer.Rejected error)
              (PromptContainer.handleSubmit_begin values c) in
  PromptContainer.log c' =
    PromptContainer.log c ++ [Generate values; ConsoleError error] ∧
  PromptContainer.result c' = PromptContainer.result c ∧
  PromptContainer.prompt c' = PromptContainer.prompt c ∧
  PromptContainer.isLoading c' = false.
Proof. cbn. by rewrite <- app_assoc. Qed.

(** *** Persist, then reload *)

Lemma save_timeout_typed v m :
  localStorage (save_timeout (to_object v) m) =
  (if truthy_string (apiKey v)
   then <["openai-api-key" := apiKey v]> else λ s, s)
    (<[STORAGE_KEY := saved_text v]> (localStorage m)).
Proof.
  destruct v as [k mo ai co ind ta ch pr obj objs [add|]];
    unfold save_timeout;
    (replace (to_object _ !! "apiKey") with (Some (JStr k)) by reflexivity);
    cbn [truthy apiKey]; destruct (truthy_string k); reflexivity.
Qed.

Lemma truthy_saved_text v : truthy_string (saved_text v) = true.
Proof. reflexivity. Qed.

Lemma entries_saved v :
  Object_entries (JObj (List.map str (saved_members v)))
  = Some (List.map str (saved_members v)).
Proof. destruct v as [k mo ai co ind ta ch pr obj objs [add|]]; reflexivity. Qed.

Lemma load_after_save v store :
  let store' :=
    (if truthy_string (apiKey v)
     then <["openai-api-key" := apiKey v]> else λ s, s)
      (<[STORAGE_KEY := saved_text v]> store) in
  ∃ m2, loadEffect (initial store') = Done m2 ∧
        values m2 = to_object (reloaded store v) ∧ mounted m2 = true.
Proof.
  intros store'.
  assert (Hform : getItem STORAGE_KEY (initial store') = Some (saved_text v)).
  { unfold getItem, store'. cbn [localStorage initial].
    destruct (truthy_string (apiKey v));
      [rewrite lookup_insert_ne by done|]; apply lookup_insert_eq. }
  assert (Hkey : getItem "openai-api-key" (initial store') =
    if truthy_string (apiKey v) then Some (apiKey v)
    else store !! "openai-api-key").
  { unfold getItem, store'. cbn [localStorage initial].
    destruct (truthy_string (apiKey v));
      [apply lookup_insert_eq | by apply lookup_insert_ne]. }
  unfold loadEffect. rewrite Hform, Hkey, truthy_saved_text.
  unfold saved_text. rewrite Codec.parse_stringify_strings, entries_saved.
  clearbody store'. eexists. split; [reflexivity|]. split; [|reflexivity].
  destruct v as [k mo ai co ind ta ch pr obj objs add].
  unfold reloaded. cbn [apiKey model aiName companyName industry targetAudience
    challenges product objective objections additionalInfo].
  destruct (truthy_string k) eqn:Ek.
  - rewrite Ek. destruct add; reflexivity.
  - destruct (store !! "openai-api-key") as [k'|].
    + destruct k'; destruct add; reflexivity.
    + destruct add; reflexivity.
Qed.

(** *** What the steps leave alone *)

Lemma Object_is_strings a b :
  Object_is (Some (JStr a)) (Some (JStr b)) = true ↔ a = b.
Proof. cbn. apply String.eqb_eq. Qed.

(** What a render leaves alone. *)
Lemma rendered_frame before m :
  let m' := rendered before m in
  values m' = values m ∧ mounted m' = mounted m ∧ log m' = log m ∧
  localStorage m' = localStorage m ∧ now m' = now m ∧ models m' = models m ∧
  errors m' = errors m ∧ inflight m' = inflight m ∧
  isLoadingModels m' = isLoadingModels m.
Proof.
  unfold rendered, apiKey_effect, save_effect, debouncedSave.
  repeat case_match; cbn; done.
Qed.

(** Only the load and the two storage writers touch [localStorage] and the
    log; the projections below are all that the invariants need. *)
Lemma loadEffect_frame m m' :
  loadEffect m = Done m' →
  mounted m' = true ∧ localStorage m' = localStorage m ∧ log m' = log m ∧
  now m' = now m ∧ fetchTimer m' = fetchTimer m ∧ timeoutId m' = timeoutId m ∧
  (is_string (values m !! "apiKey") → is_string (values m' !! "apiKey")).
Proof.
  unfold loadEffect. intros H.
  assert (∃ m1, Done m' = Done (with_mounted true
            (match getItem "openai-api-key" m with
             | Some k => if truthy_string k then setValue "apiKey" (JStr k) m1 else m1
             | None => m1
             end)) ∧
          values m1 !! "apiKey" = values m !! "apiKey" ∧
          localStorage m1 = localStorage m ∧ log m1 = log m ∧ now m1 = now m ∧
          fetchTimer m1 = fetchTimer m ∧ timeoutId m1 = timeoutId m)
    as (m1 & E & Hv & Hs & Hl & Hn & Hf & Ht).
  { repeat case_match; simplify_eq;
      try (eexists; split; [reflexivity|]; done).
    all: match goal with
         | |- context [foldl restore_entry ?m0 ?es] =>
           destruct (restore_entries_frame es m0) as (?&?&?&?&?&?&?&?&?)
         end; cbn zeta in *;
         eexists; (split; [reflexivity|]); done. }
  simplify_eq.
  destruct (getItem "openai-api-key" m) as [k|]; [destruct (truthy_string k)|];
    cbn; repeat split; try done.
  - intros _. eexists. apply lookup_insert_eq.
  - by rewrite Hv.
  - by rewrite Hv.
Qed.

Lemma resetForm_key m :
  is_string (values m !! "apiKey") → is_string (values (resetForm m) !! "apiKey").
Proof. intros [s Hs]. exists s. unfold resetForm. rewrite Hs. reflexivity. Qed.

Lemma step_values_key e m :
  is_string (values m !! "apiKey") → is_string (values (step e m) !! "apiKey").
Proof.
  intros Hk. destruct e; cbn [step]; try done.
  - destruct (mounted m); [done|].
    destruct (loadEffect m) as [m'| |] eqn:E; [|done|done].
    apply loadEffect_frame in E as (_&_&_&_&_&_&H).
    destruct (rendered_frame m m') as (->&_). auto.
  - destruct (mounted m); [|done].
    destruct (rendered_frame m (setValue (name_of f) (JStr text) m)) as (->&_).
    cbn. destruct (decide (name_of f = "apiKey")) as [->|Hne].
    + eexists. apply lookup_insert_eq.
    + by rewrite lookup_insert_ne.
  - destruct (mounted m); [|done].
    destruct (rendered_frame m (resetForm m)) as (->&_). by apply resetForm_key.
  - by destruct (rendered_frame m m) as (->&_).
  - repeat case_match; try done. unfold save_timeout. repeat case_match; done.
  - repeat case_match; try done.
    match goal with |- context [rendered ?m0 ?x] =>
      destruct (rendered_frame m0 x) as (->&_) end.
    unfold fetchModels_begin. repeat case_match; done.
  - repeat case_match; try done.
    match goal with |- context [rendered ?m0 ?x] =>
      destruct (rendered_frame m0 x) as (->&_) end.
    unfold fetchModels_settle. repeat case_match; done.
Qed.

Lemma initial_key store : is_string (values (initial store) !! "apiKey").
Proof. by eexists. Qed.

Lemma run_values_key evs : ∀ m,
  is_string (values m !! "apiKey") → is_string (values (run evs m) !! "apiKey").
Proof.
  induction evs as [|e evs IH]; intros m H; [done|].
  cbn [run foldl]. apply IH. by apply step_values_key.
Qed.

(** *** The store follows the log *)

Lemma replay_app key a b start :
  replay key (a ++ b) start = replay key b (replay key a start).
Proof. apply foldl_app. Qed.

Lemma lookup_insert_eqb (s : gmap string string) k v key :
  <[k := v]> s !! key = if String.eqb k key then Some v else s !! key.
Proof.
  destruct (String.eqb_spec k key) as [->|Hne];
    [apply lookup_insert_eq | by apply lookup_insert_ne].
Qed.

Lemma lookup_delete_eqb (s : gmap string string) k key :
  delete k s !! key = if String.eqb k key then None else s !! key.
Proof.
  destruct (String.eqb_spec k key) as [->|Hne];
    [apply lookup_delete_eq | by apply lookup_delete_ne].
Qed.

Lemma extends_refl m m' :
  log m' = log m → localStorage m' = localStorage m → extends m m'.
Proof.
  intros Hl Hs. exists []. rewrite Hl, Hs, app_nil_r. by repeat split.
Qed.

Lemma toString_string_nonempty k :
  is_string (Some k) → truthy (Some k) = true → toString k ≠ EmptyString.
Proof. intros [s [= ->]]. cbn. by destruct s. Qed.

Lemma setItem_log k v m : log (setItem k v m) = log m ++ [SetItem k v].
Proof. reflexivity. Qed.

Lemma setItem_store k v m :
  localStorage (setItem k v m) = <[k := v]> (localStorage m).
Proof. reflexivity. Qed.

Lemma save_timeout_extends due fd m :
  timeoutId m = Some (due, fd) → extends m (save_timeout fd m).
Proof.
  intros Ht. unfold save_timeout. set (text := stringify_object _). clearbody text.
  destruct (fd !! "apiKey") as [k|] eqn:Ek; [destruct (truthy (Some k)) eqn:Etr|].
  - exists [SetItem STORAGE_KEY text; SetItem "openai-api-key" (toString k)].
    change (log (with_timeoutId None ?x)) with (log x).
    change (localStorage (with_timeoutId None ?x)) with (localStorage x).
    rewrite !setItem_log, !setItem_store, <- app_assoc.
    split; [reflexivity|]. split.
    + intros key. rewrite !lookup_insert_eqb. reflexivity.
    + intros Hs. constructor; [by intros ?|]. constructor; [|constructor].
      intros _. apply toString_string_nonempty; [|done]. rewrite <- Ek. by eapply Hs.
  - exists [SetItem STORAGE_KEY text].
    change (log (with_timeoutId None ?x)) with (log x).
    change (localStorage (with_timeoutId None ?x)) with (localStorage x).
    rewrite !setItem_log, !setItem_store.
    split; [reflexivity|]. split.
    + intros key. rewrite !lookup_insert_eqb. reflexivity.
    + intros _. constructor; [by intros ?|constructor].
  - exists [SetItem STORAGE_KEY text].
    change (log (with_timeoutId None ?x)) with (log x).
    change (localStorage (with_timeoutId None ?x)) with (localStorage x).
    rewrite !setItem_log, !setItem_store.
    split; [reflexivity|]. split.
    + intros key. rewrite !lookup_insert_eqb. reflexivity.
    + intros _. constructor; [by intros ?|constructor].
Qed.

Lemma step_extends e m : extends m (step e m).
Proof.
  destruct e; cbn [step].
  - destruct (mounted m); [by apply extends_refl|].
    destruct (loadEffect m) as [m'| |] eqn:E; [| |by apply extends_refl].
    + apply loadEffect_frame in E as (_&Hs&Hl&_).
      destruct (rendered_frame m m') as (_&_&Hl'&Hs'&_).
      apply extends_refl; congruence.
    + eexists [_]. cbn. split; [reflexivity|]. split; [done|].
      intros _. by repeat constructor.
  - destruct (mounted m); [|by apply extends_refl].
    destruct (rendered_frame m (setValue (name_of f) (JStr text) m)) as (_&_&Hl&Hs&_).
    by apply extends_refl.
  - destruct (mounted m); [|by apply extends_refl].
    destruct (rendered_frame m (resetForm m)) as (_&_&Hl&Hs&_).
    eexists [_; _]. rewrite Hl, Hs. cbn. rewrite <- app_assoc.
    split; [reflexivity|]. split.
    + intros key. by rewrite lookup_delete_eqb.
    + intros _. by repeat constructor.
  - destruct (rendered_frame m m) as (_&_&Hl&Hs&_). by apply extends_refl.
  - by apply extends_refl.
  - destruct (timeoutId m) as [[due fd]|] eqn:Et; [|by apply extends_refl].
    destruct (due <=? now m); [|by apply extends_refl].
    by eapply save_timeout_extends.
  - destruct (fetchTimer m) as [[due k]|]; [|by apply extends_refl].
    destruct (due <=? now m); [|by apply extends_refl].
    match goal with |- context [rendered ?m0 ?x] =>
      destruct (rendered_frame m0 x) as (_&_&Hl&Hs&_) end.
    unfold fetchModels_begin in *. destruct (_ || _); [by apply extends_refl|].
    eexists [_]. rewrite Hl, Hs. cbn. split; [reflexivity|]. split; [done|].
    intros _. by repeat constructor.
  - destruct (0 <? inflight m); [|by apply extends_refl].
    match goal with |- context [rendered ?m0 ?x] =>
      destruct (rendered_frame m0 x) as (_&_&Hl&Hs&_) end.
    destruct r; cbn in Hl, Hs; [by apply extends_refl|].
    eexists [_; _]. rewrite Hl, Hs, <- app_assoc. split; [reflexivity|].
    split; [done|]. intros _. by repeat constructor.
Qed.

Lemma rendered_timeoutId before m :
  timeoutId (rendered before m) =
  if mounted m then Some (now m + 300, values m) else timeoutId m.
Proof.
  unfold rendered, apiKey_effect, save_effect, debouncedSave.
  repeat case_match; cbn in *; congruence.
Qed.

Lemma step_pending_ok e m : pending_ok m → pending_ok (step e m).
Proof.
  intros [Hk Ht]. split; [by apply step_values_key|].
  pose proof (step_values_key e m Hk) as Hk'.
  destruct e; cbn [step] in *; try done.
  - destruct (mounted m) eqn:Em; [done|].
    destruct (loadEffect m) as [m'| |] eqn:E; [|done|done].
    apply loadEffect_frame in E as (Hm&_&_&_&_&Htid&_).
    destruct (rendered_frame m m') as (Hv&_); rewrite Hv in Hk'.
    rewrite rendered_timeoutId, Hm. by intros due fd [= <- <-].
  - destruct (mounted m) eqn:Em; [|done].
    match type of Hk' with context [rendered ?m0 ?x] =>
      destruct (rendered_frame m0 x) as (Hv&_); rewrite Hv in Hk' end.
    rewrite rendered_timeoutId. cbn [mounted setValue with_values].
    rewrite Em. by intros due fd [= <- <-].
  - destruct (mounted m) eqn:Em; [|done].
    match type of Hk' with context [rendered ?m0 ?x] =>
      destruct (rendered_frame m0 x) as (Hv&_); rewrite Hv in Hk' end.
    rewrite rendered_timeoutId.
    replace (mounted (resetForm m)) with (mounted m) by reflexivity.
    rewrite Em. intros due fd [= <- <-]. exact Hk'.
  - rewrite rendered_timeoutId. destruct (mounted m); [|done].
    by intros due fd [= <- <-].
  - destruct (timeoutId m) as [[due fd]|] eqn:Et; [|by rewrite Et].
    destruct (due <=? now m); [|by rewrite Et].
    unfold save_timeout. repeat case_match; done.
  - destruct (fetchTimer m) as [[due k]|]; [|done].
    destruct (due <=? now m); [|done].
    match type of Hk' with context [rendered ?m0 ?x] =>
      destruct (rendered_frame m0 x) as (Hv&_); rewrite Hv in Hk' end.
    rewrite rendered_timeoutId.
    unfold fetchModels_begin in *. repeat case_match; cbn in *; try done;
      by intros ? ? [= <- <-].
  - destruct (0 <? inflight m); [|done].
    match type of Hk' with context [rendered ?m0 ?x] =>
      destruct (rendered_frame m0 x) as (Hv&_); rewrite Hv in Hk' end.
    rewrite rendered_timeoutId.
    unfold fetchModels_settle in *. repeat case_match; cbn in *; try done;
      by intros ? ? [= <- <-].
Qed.

Lemma run_extends evs : ∀ m, pending_ok m →
  pending_ok (run evs m) ∧
  ∃ new, log (run evs m) = log m ++ new ∧
    (∀ key, localStorage (run evs m) !! key = replay key new (localStorage m !! key)) ∧
    Forall keeps_credential new.
Proof.
  induction evs as [|e evs IH]; intros m Hp.
  - split; [done|]. exists []. by rewrite app_nil_r.
  - cbn [run foldl]. destruct (IH (step e m) (step_pending_ok _ _ Hp))
      as (Hp' & new' & Hl' & Hs' & Hf').
    split; [done|].
    destruct (step_extends e m) as (new & Hl & Hs & Hf).
    exists (new ++ new'). split; [by rewrite app_assoc, <- Hl|]. split.
    + intros key. by rewrite replay_app, <- Hs.
    + apply Forall_app. split; [apply Hf, Hp | done].
Qed.

Lemma fire_after m ms fd :
  timeoutId m = Some (now m + 300, fd) → 300 ≤ ms →
  run [Advance ms; SaveTimeout] m = save_timeout fd (with_now (now m + ms) m).
Proof.
  intros Ht Hms. cbn [run foldl step].
  change (timeoutId (with_now ?x m)) with (timeoutId m). rewrite Ht.
  change (now (with_now ?x m)) with x.
  destruct (Nat.leb_spec (now m + 300) (now m + ms)); [done | lia].
Qed.

Lemma save_timeout_store fd m m' :
  localStorage m = localStorage m' →
  localStorage (save_timeout fd m) = localStorage (save_timeout fd m').
Proof.
  intros Hs. unfold save_timeout. set (text := stringify_object _). clearbody text.
  destruct (fd !! "apiKey") as [k|]; [destruct (truthy (Some k))|];
    change (localStorage (with_timeoutId None ?x)) with (localStorage x);
    rewrite !setItem_store; by rewrite Hs.
Qed.

Lemma input_then_wait f text ms m :
  mounted m = true → 300 ≤ ms →
  localStorage (run [Input f text; Advance ms; SaveTimeout] m) =
  localStorage (save_timeout (values (step (Input f text) m)) m).
Proof.
  intros Hm Hms.
  change (run (?e :: ?r) m) with (run r (step e m)).
  set (m1 := step (Input f text) m).
  assert (H1 : timeoutId m1 = Some (now m1 + 300, values m1) ∧
               localStorage m1 = localStorage m).
  { subst m1. cbn [step]. rewrite Hm.
    destruct (rendered_frame m (setValue (name_of f) (JStr text) m))
      as (Hv&_&_&Hs&Hn&_).
    rewrite rendered_timeoutId, Hv, Hs, Hn. cbn. by rewrite Hm. }
  destruct H1 as [Ht Hs]. rewrite (fire_after _ _ _ Ht Hms).
  clearbody m1. by apply save_timeout_store.
Qed.

(** C4, amended: after a last edit and a wait of the debounce delay, a
    fresh load over the same store shows the form [reloaded] describes:
    every non-credential field as written whenever additionalInfo is a
    string, and the credential as written whenever it is non-empty (an
    empty credential is not persisted; the load then shows the credential
    the store already held). *)
Theorem C4_persist_then_reload (v : FormValues) (m : machine) (f : field)
    (text : string) (ms : nat) :
  mounted m = true →
  values (step (Input f text) m) = to_object v →
  300 ≤ ms →
  let m1 := run [Input f text; Advance ms; SaveTimeout] m in
  ∃ m2, loadEffect (initial (localStorage m1)) = Done m2 ∧
    values m2 = to_object (reloaded (localStorage m) v) ∧
    (additionalInfo v ≠ None →
       ∀ g, g ≠ F_apiKey → values m2 !! name_of g = to_object v !! name_of g) ∧
    (apiKey v ≠ EmptyString → values m2 !! "apiKey" = Some (JStr (apiKey v))) ∧
    (additionalInfo v ≠ None → apiKey v ≠ EmptyString → values m2 = to_object v).
Proof.
  intros Hm Hv Hms m1. subst m1.
  rewrite input_then_wait by done. rewrite Hv, save_timeout_typed.
  destruct (load_after_save v (localStorage m)) as (m2 & Hl & Hv2 & _).
  exists m2. split; [exact Hl|]. split; [exact Hv2|]. rewrite Hv2.
  destruct v as [k mo ai co ind ta ch pr obj objs add].
  cbn [additionalInfo apiKey]. unfold reloaded.
  cbn [apiKey model aiName companyName industry targetAudience challenges product
       objective objections additionalInfo].
  split; [|split].
  - intros Hadd g Hg. destruct add as [a|]; [|done].
    destruct g; try done; reflexivity.
  - intros Hk. destruct k; [done|]. destruct add; reflexivity.
  - intros Hadd Hk. destruct add as [a|]; [|done]. by destruct k.
Qed.

(** C4 as stated fails: the credential is cleared in the form, the
    debounce elapses, and the reload shows the credential stored earlier
    instead of the empty one that was written. *)
Lemma C4_cleared_credential_comes_back :
  let store : gmap string string := {[ "openai-api-key" := "sk-old" ]} in
  let m1 :=
    run [ Mount; Input F_apiKey EmptyString; Input F_companyName "Acme";
          Advance 300; SaveTimeout ] (initial store) in
  values m1 !! "apiKey" = Some (JStr EmptyString) ∧
  values m1 !! "companyName" = Some (JStr "Acme") ∧
  ∃ m2, loadEffect (initial (localStorage m1)) = Done m2 ∧
        values m2 !! "companyName" = Some (JStr "Acme") ∧
        values m2 !! "apiKey" = Some (JStr "sk-old") ∧
        values m2 !! "apiKey" ≠ values m1 !! "apiKey".
Proof.
  vm_compute. split; [done|]. split; [done|]. eexists. split; [reflexivity|].
  vm_compute. done.
Qed.

Lemma to_object_with_apiKey k v :
  <["apiKey" := JStr k]> (to_object v) = to_object (with_apiKey k v).
Proof. destruct v as [k0 mo ai co ind ta ch pr obj objs [add|]]; reflexivity. Qed.


(** *** The fetch timer *)

Lemma key_changed_same m m' :
  is_string (values m !! "apiKey") →
  values m' !! "apiKey" = values m !! "apiKey" → mounted m' = mounted m →
  key_changed m m' = false.
Proof.
  intros [s Hs] Hv Hm. unfold key_changed. rewrite Hv, Hm, Hs. cbn.
  rewrite String.eqb_refl. by destruct (mounted m).
Qed.

Lemma key_changed_rendered m m' :
  key_changed m (rendered m m') = key_changed m m'.
Proof.
  unfold key_changed. by destruct (rendered_frame m m') as (->&->&_).
Qed.

Lemma rendered_fetchTimer before m :
  fetchTimer (rendered before m) =
  if key_changed before m then
    match values m !! "apiKey", length_of (values m !! "apiKey") with
    | Some k, Some n =>
      if mounted m && (30 <=? n) then Some (now m + 500, k) else None
    | _, _ => None
    end
  else fetchTimer m.
Proof.
  unfold rendered, key_changed, apiKey_effect, save_effect, debouncedSave.
  repeat case_match; cbn in *; congruence.
Qed.

Lemma rendered_fetch_ok q before m :
  fetch_ok q before → is_string (values m !! "apiKey") → now m = now before →
  (fetchTimer m = fetchTimer before ∨ fetchTimer m = None) →
  fetch_ok (if key_changed before m then 0 else q) (rendered before m).
Proof.
  intros [[s0 Hs0] Hf] [s Hs] Hn Ht.
  destruct (rendered_frame before m) as (Hv&Hm&_&_&Hn'&_).
  split; [rewrite Hv; by exists s|].
  intros due k. rewrite rendered_fetchTimer, Hv, Hm, Hn'.
  destruct (key_changed before m) eqn:Ec.
  - rewrite Hs. cbn [length_of].
    destruct (mounted m) eqn:Em; [|done]. cbn [andb].
    destruct (Nat.leb_spec 30 (String.length s)); [|done].
    intros [= <- <-]. repeat split; [|lia]. by exists s.
  - unfold key_changed in Ec. rewrite Hs0, Hs in Ec.
    apply negb_false_iff, andb_true_iff in Ec as [E1 E2].
    apply Object_is_strings in E1 as ->. apply Bool.eqb_prop in E2.
    intros Hd. destruct Ht as [Ht|Ht]; rewrite Ht in Hd; [|done].
    destruct (Hf _ _ Hd) as (H1 & H2 & H3 & H4).
    repeat split; [congruence | congruence | done | lia].
Qed.

Lemma save_timeout_frame fd m :
  let m' := save_timeout fd m in
  values m' = values m ∧ mounted m' = mounted m ∧ now m' = now m ∧
  fetchTimer m' = fetchTimer m.
Proof.
  unfold save_timeout. set (text := stringify_object _). clearbody text.
  destruct (fd !! "apiKey") as [k|]; [destruct (truthy (Some k))|]; done.
Qed.

Lemma step_fetch_ok e q m :
  fetch_ok q m → fetch_ok (quiet_step e m q) (step e m).
Proof.
  intros Hok. pose proof Hok as [Hk Hf].
  destruct e; cbn [quiet_step].
  - cbn [step]. destruct (mounted m) eqn:Em.
    { by rewrite key_changed_same. }
    destruct (loadEffect m) as [m'| |] eqn:E.
    + apply loadEffect_frame in E as (_&_&_&Hn&Ht&_&Hs).
      rewrite key_changed_rendered. apply rendered_fetch_ok; auto.
    + by rewrite key_changed_same.
    + by rewrite key_changed_same.
  - cbn [step]. destruct (mounted m) eqn:Em; [|by rewrite key_changed_same].
    rewrite key_changed_rendered. apply rendered_fetch_ok; auto.
    pose proof (step_values_key (Input f text) m Hk) as H.
    cbn [step] in H. rewrite Em in H.
    by destruct (rendered_frame m (setValue (name_of f) (JStr text) m)) as (<-&_).
  - cbn [step]. destruct (mounted m) eqn:Em; [|by rewrite key_changed_same].
    rewrite key_changed_rendered. apply rendered_fetch_ok; auto.
    by apply resetForm_key.
  - cbn [step]. rewrite key_changed_rendered. apply rendered_fetch_ok; auto.
  - cbn [step]. split; [done|]. intros due k Hd.
    destruct (Hf _ _ Hd) as (H1 & H2 & H3 & H4).
    repeat split; try done. cbn. lia.
  - cbn [step]. destruct (timeoutId m) as [[due fd]|]; [|by rewrite key_changed_same].
    destruct (due <=? now m); [|by rewrite key_changed_same].
    destruct (save_timeout_frame fd m) as (Hv & Hm & Hn & Ht).
    rewrite key_changed_same by (done || by rewrite Hv).
    split; [by rewrite Hv|]. intros due' k. rewrite Ht, Hv, Hm, Hn. apply Hf.
  - cbn [step]. destruct (fetchTimer m) as [[due k]|]; [|by rewrite key_changed_same].
    destruct (due <=? now m); [|by rewrite key_changed_same].
    rewrite key_changed_rendered. apply rendered_fetch_ok; auto.
    + unfold fetchModels_begin. by repeat case_match.
    + unfold fetchModels_begin. by repeat case_match.
    + right. unfold fetchModels_begin. by repeat case_match.
  - cbn [step]. destruct (0 <? inflight m); [|by rewrite key_changed_same].
    rewrite key_changed_rendered. apply rendered_fetch_ok; auto.
    + by destruct r.
    + by destruct r.
    + left. by destruct r.
Qed.

Lemma run_fetch_ok evs : ∀ q m,
  fetch_ok q m → fetch_ok (quiet_from evs m q) (run evs m).
Proof.
  induction evs as [|e evs IH]; intros q m H; [done|].
  cbn [run foldl quiet_from]. apply IH. by apply step_fetch_ok.
Qed.

Lemma added_app m m' new : log m' = log m ++ new → added m m' = new.
Proof. intros H. unfold added. rewrite H. apply drop_app_length. Qed.

Lemma added_same m m' : log m' = log m → added m m' = [].
Proof. intros H. apply added_app. by rewrite H, app_nil_r. Qed.

(** The step added nothing, so it did not add [Hin]'s effect. *)
Ltac nothing_added Hin :=
  rewrite added_same in Hin by (done || congruence);
  by apply elem_of_nil in Hin.

Lemma step_issues e q m k :
  fetch_ok q m → ModelsList k ∈ added m (step e m) →
  e = FetchTimeout ∧
  ∃ s, k = JStr s ∧ values m !! "apiKey" = Some (JStr s) ∧
       30 ≤ String.length s ∧ 500 ≤ q.
Proof.
  intros [Hk Hf] Hin. destruct e; cbn [step] in Hin.
  - exfalso. destruct (mounted m); [nothing_added Hin|].
    destruct (loadEffect m) as [m'| |] eqn:E.
    + apply loadEffect_frame in E as (_&_&Hl&_).
      destruct (rendered_frame m m') as (_&_&Hl'&_).
      nothing_added Hin.
    + rewrite (added_app _ _ [Uncaught name]) in Hin by reflexivity.
      apply list_elem_of_singleton in Hin. done.
    + nothing_added Hin.
  - exfalso. destruct (mounted m);
      [destruct (rendered_frame m (setValue (name_of f) (JStr text) m)) as (_&_&Hl&_)|];
      nothing_added Hin.
  - exfalso. destruct (mounted m).
    + destruct (rendered_frame m (resetForm m)) as (_&_&Hl&_).
      rewrite (added_app _ _ [RemoveItem STORAGE_KEY;
        Toast "Form Reset" "All fields have been cleared except the API key" false])
        in Hin by (rewrite Hl; cbn; by rewrite <- app_assoc).
      apply elem_of_cons in Hin as [?|Hin]; [done|].
      apply list_elem_of_singleton in Hin. done.
    + nothing_added Hin.
  - exfalso. destruct (rendered_frame m m) as (_&_&Hl&_).
    nothing_added Hin.
  - exfalso. nothing_added Hin.
  - exfalso. destruct (timeoutId m) as [[due fd]|] eqn:Et;
      [destruct (due <=? now m)|];
      try (nothing_added Hin).
    destruct (save_timeout_extends due fd m Et) as (new & Hl & _ & _).
    revert Hin. unfold save_timeout. set (text := stringify_object _). clearbody text.
    destruct (fd !! "apiKey") as [k0|]; [destruct (truthy (Some k0))|]; intros Hin.
    + rewrite (added_app _ _ [SetItem STORAGE_KEY text;
                              SetItem "openai-api-key" (toString k0)]) in Hin
        by (cbn; by rewrite <- app_assoc).
      apply elem_of_cons in Hin as [?|Hin]; [done|].
      apply list_elem_of_singleton in Hin. done.
    + rewrite (added_app _ _ [SetItem STORAGE_KEY text]) in Hin by reflexivity.
      apply list_elem_of_singleton in Hin. done.
    + rewrite (added_app _ _ [SetItem STORAGE_KEY text]) in Hin by reflexivity.
      apply list_elem_of_singleton in Hin. done.
  - split; [done|].
    destruct (fetchTimer m) as [[due k0]|] eqn:Et;
      [|nothing_added Hin].
    destruct (Nat.leb_spec due (now m)) as [Hdue|];
      [|nothing_added Hin].
    destruct (Hf _ _ eq_refl) as (Hm & Hv & (s & -> & Hlen) & Hq).
    match type of Hin with context [rendered ?m0 ?x] =>
      destruct (rendered_frame m0 x) as (_&_&Hl&_) end.
    unfold fetchModels_begin in *. cbn [mounted with_fetchTimer] in *.
    rewrite Hm in *. destruct s as [|c s]; [cbn in Hlen; lia|].
    cbn [truthy truthy_string negb orb] in *.
    rewrite (added_app _ _ [ModelsList (JStr (String c s))]) in Hin
      by (rewrite Hl; reflexivity).
    apply list_elem_of_singleton in Hin. simplify_eq.
    exists (String c s). repeat split; try done. lia.
  - exfalso. destruct (0 <? inflight m);
      [|nothing_added Hin].
    match type of Hin with context [rendered ?m0 ?x] =>
      destruct (rendered_frame m0 x) as (_&_&Hl&_) end.
    destruct r.
    + rewrite added_same in Hin by (rewrite Hl; reflexivity).
      by apply elem_of_nil in Hin.
    + rewrite (added_app _ _
        [ConsoleError ("Failed to fetch models: " +:+ message);
         Toast "Failed to load models"
           "Using default models only. Please check your API key." true]) in Hin
        by (rewrite Hl; cbn; by rewrite <- app_assoc).
      apply elem_of_cons in Hin as [?|Hin]; [done|].
      apply list_elem_of_singleton in Hin. done.
Qed.

Lemma initial_fetch_ok store : fetch_ok 0 (initial store).
Proof. split; [apply initial_key | done]. Qed.


(** *** Restoring from the history *)


(* ===================================================================== *)
(** ** The statements at sample inputs                                   *)
(* ===================================================================== *)

Lemma C2_witness :
  ∃ m' c',
    click_submit PromptContainer.handleSubmit_begin false
      (with_values (to_object sample_form) (initial ∅)) PromptContainer.initial
    = Some (m', c') ∧
    PromptContainer.generator_calls (PromptContainer.log c') = [sample_form].
Proof.
  destruct (C2_submit_calls_the_generator_once_or_never sample_form
              (with_values (to_object sample_form) (initial ∅))
              PromptContainer.initial eq_refl eq_refl)
    as (m' & c' & H1 & H2 & _).
  exists m', c'. split; [exact H1|].
  apply H2. repeat constructor; discriminate.
Defined.

Lemma C4_witness :
  ∃ m2,
    loadEffect (initial (localStorage
      (run [Input F_companyName "Acme"; Advance 300; SaveTimeout]
         (run [Mount; Input F_apiKey "sk-typed"] (initial ∅))))) = Done m2 ∧
    values m2 = to_object acme_form.
Proof.
  destruct (C4_persist_then_reload acme_form
              (run [Mount; Input F_apiKey "sk-typed"] (initial ∅))
              F_companyName "Acme" 300) as (m2 & H1 & _ & _ & _ & H5).
  - reflexivity.
  - reflexivity.
  - lia.
  - exists m2. split; [exact H1|]. apply H5; discriminate.
Defined.



Lemma C6_witness :
  length sample_history = 25 ∧
  PromptHistory.currentItems sample_history (page 2)
  = drop 20 sample_history.
Proof.
  split; [reflexivity|].
  apply (HistoryFacts.C6_pages_of_25_items sample_history). reflexivity.
Defined.

(* ===================================================================== *)
(** ** Further properties of the components                           *)
(* ===================================================================== *)

(** *** What the schema accepts *)

(** *** More on formSchema *)

Lemma string_min1_nil name message v :
  string_min1 name message v = [] →
  ∃ s, v = Some (JStr s) ∧ s ≠ EmptyString.
Proof.
  destruct v as [[]|]; try done. cbn. destruct s; [done|]. eauto.
Qed.

Lemma string_optional_nil name v :
  string_optional name v = [] → v = JStr <$> as_optional_string v.
Proof. by destruct v as [[]|]. Qed.

Lemma formSchema_issues input :
  issues_of (formSchema input) =
    string_min1 "apiKey" "OpenAI API key is required" (input !! "apiKey") ++
    string_min1 "model" "Model selection is required" (input !! "model") ++
    string_min1 "aiName" "AI name is required" (input !! "aiName") ++
    string_min1 "companyName" "Company name is required" (input !! "companyName") ++
    string_min1 "industry" "Industry is required" (input !! "industry") ++
    string_min1 "targetAudience" "Target audience is required"
      (input !! "targetAudience") ++
    string_min1 "challenges" "Challenges are required" (input !! "challenges") ++
    string_min1 "product" "Product/service is required" (input !! "product") ++
    string_min1 "objective" "Call objective is required" (input !! "objective") ++
    string_min1 "objections" "Common objections are required"
      (input !! "objections") ++
    string_optional "additionalInfo" (input !! "additionalInfo").
Proof.
  unfold formSchema.
  match goal with |- context [match ?l with [] => _ | _ :: _ => _ end] =>
    destruct l eqn:E end; reflexivity.
Qed.

Lemma formSchema_success input v :
  formSchema input = Success v → issues_of (formSchema input) = [].
Proof. by intros ->. Qed.

(** X1: the schema accepts an input only as the typed form it holds: every
    required field of the accepted form is a non-empty string, and each
    of the eleven fields of the accepted form is the input's value under
    that name. *)
Theorem formSchema_accepts_only_filled_forms (input : gmap string json)
    (v : FormValues) :
  formSchema input = Success v →
  Forall (λ s, s ≠ EmptyString) (required_fields v) ∧
  ∀ f, to_object v !! name_of f = input !! name_of f.
Proof.
  intros H. pose proof (formSchema_success _ _ H) as Hi.
  rewrite formSchema_issues in Hi.
  repeat (apply app_eq_nil in Hi as [?%string_min1_nil Hi]).
  apply string_optional_nil in Hi.
  repeat match goal with X : ∃ _, _ |- _ => destruct X as (? & ? & ?) end.
  unfold formSchema in H.
  match type of H with context [match ?l with [] => _ | _ :: _ => _ end] =>
    destruct l; [|done] end.
  injection H as <-.
  repeat match goal with X : _ !! _ = Some _ |- _ => rewrite X in * end.
  split.
  - unfold required_fields. cbn. repeat constructor; done.
  - intros f. rewrite Hi. cbn [as_string].
    destruct (as_optional_string (input !! "additionalInfo")) eqn:Ea;
      destruct f; cbn [name_of]; try rewrite Hi;
      repeat match goal with X : _ !! _ = Some _ |- _ => rewrite X end;
      reflexivity.
Qed.

Lemma formSchema_issues_by_field input :
  issues_of (formSchema input) = mjoin (report input <$> all_fields).
Proof. rewrite formSchema_issues. cbn. by rewrite app_nil_r. Qed.

Lemma name_of_inj f g : name_of f = name_of g → f = g.
Proof. destruct f, g; cbn; intros H; try reflexivity; discriminate H. Qed.

Lemma string_min1_elem name message v n msg :
  (n, msg) ∈ string_min1 name message v → n = name.
Proof.
  destruct v as [[]|]; cbn; try (intros ?%list_elem_of_singleton; by simplify_eq).
  destruct (truthy_string s); [by intros ?%elem_of_nil|].
  intros ?%list_elem_of_singleton; by simplify_eq.
Qed.

Lemma string_optional_elem name v n msg :
  (n, msg) ∈ string_optional name v → n = name.
Proof.
  destruct v as [[]|]; cbn;
    try (intros ?%list_elem_of_singleton; by simplify_eq);
    by intros ?%elem_of_nil.
Qed.

Lemma report_elem input f n msg : (n, msg) ∈ report input f → n = name_of f.
Proof.
  destruct f; cbn [report name_of];
    first [apply string_min1_elem | apply string_optional_elem].
Qed.

Lemma string_min1_reports name message v :
  (∃ msg, (name, msg) ∈ string_min1 name message v) ↔
  match v with Some (JStr s) => truthy_string s | _ => false end = false.
Proof.
  destruct v as [[]|]; cbn; try (split; [done|]; intros _; eexists; by left).
  destruct (truthy_string s); split; try done.
  - by intros [? ?%elem_of_nil].
  - intros _. eexists. by left.
Qed.

Lemma string_optional_reports name v :
  (∃ msg, (name, msg) ∈ string_optional name v) ↔
  match v with None => true | Some (JStr _) => true | _ => false end = false.
Proof.
  destruct v as [[]|]; cbn; try (split; [done|]; intros _; eexists; by left);
    split; try done; by intros [? ?%elem_of_nil].
Qed.

Lemma report_field_ok input f :
  (∃ msg, (name_of f, msg) ∈ report input f) ↔ field_ok f input = false.
Proof.
  unfold field_ok.
  destruct f; cbn [report name_of];
    first [apply string_min1_reports | apply string_optional_reports].
Qed.

(** X2: the schema raises an issue under a field's name exactly when the
    field does not hold what is asked of it (a non-empty string; for
    [additionalInfo] a string or nothing): no bad field goes unreported
    and no good field is reported. *)
Theorem formSchema_reports_each_bad_field (input : gmap string json)
    (f : field) :
  (∃ msg, (name_of f, msg) ∈ issues_of (formSchema input)) ↔
  field_ok f input = false.
Proof.
  rewrite formSchema_issues_by_field, <- report_field_ok.
  split; intros [msg H]; exists msg.
  - apply list_elem_of_join in H as (l & Hin & Hl).
    apply list_elem_of_fmap in Hl as (g & -> & _).
    pose proof (report_elem _ _ _ _ Hin) as ->%name_of_inj. done.
  - apply list_elem_of_join. exists (report input f). split; [done|].
    apply list_elem_of_fmap. exists f. split; [done|].
    unfold all_fields. destruct f; set_solver.
Qed.

(** X3: the schema accepts an input exactly when each of the eleven fields
    holds what is asked of it; members under other names play no part. *)
Theorem formSchema_succeeds_iff_all_fields_ok (input : gmap string json) :
  (∃ v, formSchema input = Success v) ↔
  forallb (λ f, field_ok f input) all_fields = true.
Proof.
  split.
  - intros [v H]. apply forallb_forall. intros f _.
    destruct (field_ok f input) eqn:E; [done|].
    apply formSchema_reports_each_bad_field in E as [msg E].
    rewrite H in E. by apply elem_of_nil in E.
  - intros H. destruct (formSchema input) as [v|issues] eqn:E; [eauto|].
    exfalso. assert (Hi : issues_of (formSchema input) = issues) by (by rewrite E).
    assert (Hne : issues ≠ []).
    { unfold formSchema in E.
      match type of E with context [match ?l with [] => _ | _ :: _ => _ end] =>
        destruct l; [done|by injection E as <-] end. }
    destruct issues as [|[n msg] issues]; [done|].
    assert (Hin : (n, msg) ∈ issues_of (formSchema input)) by (rewrite Hi; by left).
    rewrite formSchema_issues_by_field in Hin.
    apply list_elem_of_join in Hin as (l & Hin & Hl).
    apply list_elem_of_fmap in Hl as (f & -> & Hf).
    pose proof (report_elem _ _ _ _ Hin) as ->.
    assert (Hbad : field_ok f input = false) by (apply report_field_ok; eauto).
    rewrite forallb_forall in H. rewrite H in Hbad; [done|].
    by apply list_elem_of_In.
Qed.

(** *** What the steps of the form write *)

Lemma step_log e m : log (step e m) = log m ++ added m (step e m).
Proof.
  destruct (step_extends e m) as (new & Hl & _). by rewrite (added_app _ _ _ Hl).
Qed.

Lemma save_timeout_added fd m :
  added m (save_timeout fd m) =
  SetItem STORAGE_KEY (snapshot_of fd) ::
  match fd !! "apiKey" with
  | Some k => if truthy (Some k) then [SetItem "openai-api-key" (toString k)] else []
  | None => []
  end.
Proof.
  apply added_app. unfold save_timeout.
  change (stringify_object _) with (snapshot_of fd).
  generalize (snapshot_of fd). intros text.
  destruct (fd !! "apiKey") as [k|]; [destruct (truthy (Some k))|];
    change (log (with_timeoutId None ?x)) with (log x);
    rewrite !setItem_log, <- ?app_assoc; reflexivity.
Qed.

(** The effects one step can add. *)
Lemma step_added e m :
  added m (step e m) = [] ∨
  (∃ name, added m (step e m) = [Uncaught name]) ∨
  added m (step e m) =
    [RemoveItem STORAGE_KEY;
     Toast "Form Reset" "All fields have been cleared except the API key" false] ∨
  (∃ due fd, e = SaveTimeout ∧ timeoutId m = Some (due, fd) ∧ due ≤ now m ∧
     added m (step e m) = added m (save_timeout fd m)) ∨
  (∃ k, added m (step e m) = [ModelsList k]) ∨
  (∃ message, added m (step e m) =
     [ConsoleError ("Failed to fetch models: " +:+ message);
      Toast "Failed to load models"
        "Using default models only. Please check your API key." true]).
Proof.
  destruct e; cbn [step].
  - destruct (mounted m); [left; by apply added_same|].
    destruct (loadEffect m) as [m'| |] eqn:E.
    + left. apply loadEffect_frame in E as (_&_&Hl&_).
      destruct (rendered_frame m m') as (_&_&Hl'&_).
      apply added_same. congruence.
    + right; left. exists name. by apply added_app.
    + left; by apply added_same.
  - left. destruct (mounted m); [|by apply added_same].
    destruct (rendered_frame m (setValue (name_of f) (JStr text) m)) as (_&_&Hl&_).
    by apply added_same.
  - destruct (mounted m); [|left; by apply added_same].
    right; right; left.
    destruct (rendered_frame m (resetForm m)) as (_&_&Hl&_).
    apply added_app. rewrite Hl. cbn. by rewrite <- app_assoc.
  - left. destruct (rendered_frame m m) as (_&_&Hl&_). by apply added_same.
  - left. by apply added_same.
  - destruct (timeoutId m) as [[due fd]|] eqn:Et; [|left; by apply added_same].
    destruct (Nat.leb_spec due (now m)); [|left; by apply added_same].
    right; right; right; left. by exists due, fd.
  - destruct (fetchTimer m) as [[due k]|]; [|left; by apply added_same].
    destruct (due <=? now m); [|left; by apply added_same].
    match goal with |- context [rendered ?m0 ?x] =>
      destruct (rendered_frame m0 x) as (_&_&Hl&_) end.
    unfold fetchModels_begin in *. destruct (_ || _).
    + left. apply added_same. by rewrite Hl.
    + right; right; right; right; left. exists k. apply added_app. by rewrite Hl.
  - destruct (0 <? inflight m); [|left; by apply added_same].
    match goal with |- context [rendered ?m0 ?x] =>
      destruct (rendered_frame m0 x) as (_&_&Hl&_) end.
    destruct r.
    + left. apply added_same. by rewrite Hl.
    + do 5 right. exists message. apply added_app. rewrite Hl. cbn.
      by rewrite <- app_assoc.
Qed.

(** A property of effects that every step respects holds of the whole log
    of a run. *)
Lemma run_log_Forall (P : effect → Prop) (I : machine → Prop) :
  (∀ e m, I m → I (step e m)) →
  (∀ e m, I m → Forall P (added m (step e m))) →
  ∀ evs m, I m → Forall P (log m) →
    Forall P (log (run evs m)) ∧ I (run evs m).
Proof.
  intros HI HP. induction evs as [|e evs IH]; intros m Hm Hl; [done|].
  cbn [run foldl]. apply IH; [by apply HI|].
  rewrite step_log. apply Forall_app. split; [done | by apply HP].
Qed.

Lemma omap_names (names : list string) (props : list (string * option json)) :
  Forall (λ kv, kv.1 ∈ names) props →
  Forall (λ kv : string * json, kv.1 ∈ names)
    (omap (λ kv, pair kv.1 <$> kv.2) props).
Proof.
  induction 1 as [|[k [v|]] props Hk _ IH]; cbn; [done| |done].
  by constructor.
Qed.

Lemma snapshot_members fd :
  ∃ ms, snapshot_of fd = JSON.stringify (JObj ms) ∧
        Forall (λ kv : string * json, kv.1 ∈ snapshot_names) ms.
Proof.
  eexists. split; [reflexivity|]. apply omap_names.
  repeat constructor; cbn [fst]; unfold snapshot_names; set_solver.
Qed.

Lemma step_added_Forall (P : effect → Prop) e m :
  (∀ name, P (Uncaught name)) → P (RemoveItem STORAGE_KEY) →
  (∀ a b c, P (Toast a b c)) → (∀ k, P (ModelsList k)) →
  (∀ msg, P (ConsoleError msg)) →
  (∀ fd, P (SetItem STORAGE_KEY (snapshot_of fd))) →
  (∀ v, P (SetItem "openai-api-key" v)) →
  Forall P (added m (step e m)).
Proof.
  intros H1 H2 H3 H4 H5 H6 H7.
  destruct (step_added e m) as [->|[(n&->)|[->|[(due&fd&_&_&_&->)|[(k&->)|(msg&->)]]]]];
    try (repeat constructor; done).
  rewrite save_timeout_added. constructor; [done|].
  destruct (fd !! "apiKey") as [k|]; [destruct (truthy (Some k))|];
    repeat constructor; done.
Qed.

(** X4: whatever happens to the form, every text it writes under the
    form-data key is the JSON text of an object whose members carry names
    of the ten other fields only; no member is named [apiKey]. *)
Theorem snapshot_never_holds_the_credential
    (store : gmap string string) (evs : list event) (text : string) :
  SetItem STORAGE_KEY text ∈ log (run evs (initial store)) →
  ∃ ms, text = JSON.stringify (JObj ms) ∧
        Forall (λ kv : string * json, kv.1 ∈ snapshot_names) ms ∧
        Forall (λ kv : string * json, kv.1 ≠ "apiKey") ms.
Proof.
  intros Hin.
  destruct (run_log_Forall snapshot_ok (λ _, True)) with (evs := evs)
    (m := initial store) as [Hf _]; try done.
  - intros e m _. apply step_added_Forall; try done.
    intros fd _. apply snapshot_members.
  - rewrite Forall_forall in Hf. destruct (Hf _ Hin eq_refl) as (ms & -> & Hms).
    exists ms. split; [done|]. split; [done|].
    eapply Forall_impl; [exact Hms|]. intros [k v] Hk. cbn in *. intros ->.
    unfold snapshot_names in Hk.
    repeat (apply elem_of_cons in Hk as [?|Hk]; [done|]). by apply elem_of_nil in Hk.
Qed.

Lemma replay_other key new start :
  Forall (λ e, storage_key e ≠ Some key) new → replay key new start = start.
Proof.
  revert start. induction new as [|e new IH]; intros start H; [done|].
  apply Forall_cons in H as [He H]. cbn [replay foldl].
  destruct e; cbn in He |- *; try (by apply IH).
  - destruct (String.eqb_spec key0 key) as [->|]; [done | by apply IH].
  - destruct (String.eqb_spec key0 key) as [->|]; [done | by apply IH].
Qed.

(** X5: whatever happens to the form, it writes and removes storage
    entries under its two keys only, and every other entry of the store
    stays as it was. *)
Theorem form_touches_only_its_two_keys
    (store : gmap string string) (evs : list event) :
  Forall own_key (log (run evs (initial store))) ∧
  ∀ key, key ≠ STORAGE_KEY → key ≠ "openai-api-key" →
    localStorage (run evs (initial store)) !! key = store !! key.
Proof.
  destruct (run_log_Forall own_key (λ _, True)) with (evs := evs)
    (m := initial store) as [Hf _]; try done.
  { intros e m _. apply step_added_Forall; unfold own_key; cbn;
      intros; simplify_eq; auto. }
  split; [done|]. intros key H1 H2.
  destruct (run_extends evs (initial store)) as (_ & new & Hl & Hs & _).
  { split; [apply initial_key | done]. }
  rewrite Hs. cbn [log initial app] in Hl. rewrite Hl in Hf.
  apply replay_other. eapply Forall_impl; [exact Hf|].
  intros e He Hk. destruct (He _ Hk); congruence.
Qed.

(** *** The load, once more *)

Lemma with_values_id m : with_values (values m) m = m.
Proof. by destruct m. Qed.

Lemma restore_entries_values entries : ∀ m,
  foldl restore_entry m entries = with_values (restore_values (values m) entries) m.
Proof.
  induction entries as [|kv entries IH]; intros m; cbn [foldl].
  - unfold restore_values. cbn [foldl]. by rewrite with_values_id.
  - rewrite IH. unfold restore_values, restore_entry. cbn [foldl].
    by destruct (String.eqb kv.1 "apiKey").
Qed.

(** The load as a function of the two stored texts. *)
Lemma loadEffect_done m m' :
  loadEffect m = Done m' →
  ∃ entries,
    m' = with_mounted true
           (with_values
              (restore_credential (getItem "openai-api-key" m)
                 (restore_values (values m) entries)) m) ∧
    ∀ m0, getItem STORAGE_KEY m0 = getItem STORAGE_KEY m →
          getItem "openai-api-key" m0 = getItem "openai-api-key" m →
          loadEffect m0 =
          Done (with_mounted true
                  (with_values
                     (restore_credential (getItem "openai-api-key" m)
                        (restore_values (values m0) entries)) m0)).
Proof.
  unfold loadEffect. intros H.
  destruct (getItem STORAGE_KEY m) as [text|] eqn:Et.
  - destruct (truthy_string text) eqn:Etr.
    + destruct (JSON.parse text) as [v r| |] eqn:Ep; [|done|done].
      destruct (Object_entries v) as [entries|] eqn:Ee; [|done].
      exists entries. rewrite restore_entries_values in H. split.
      * injection H as <-. unfold restore_credential.
        by destruct (getItem "openai-api-key" m) as [k|];
          [destruct (truthy_string k)|].
      * intros m0 -> ->. rewrite Etr, Ep, Ee, restore_entries_values.
        unfold restore_credential.
        by destruct (getItem "openai-api-key" m) as [k|];
          [destruct (truthy_string k)|].
    + exists []. split.
      * injection H as <-. unfold restore_credential. unfold restore_values; cbn [foldl].
        destruct (getItem "openai-api-key" m) as [k|];
          [destruct (truthy_string k)|]; by rewrite ?with_values_id.
      * intros m0 -> ->. rewrite Etr. unfold restore_credential.
        unfold restore_values; cbn [foldl].
        destruct (getItem "openai-api-key" m) as [k|];
          [destruct (truthy_string k)|]; by rewrite ?with_values_id.
  - exists []. split.
    + injection H as <-. unfold restore_credential. unfold restore_values; cbn [foldl].
      destruct (getItem "openai-api-key" m) as [k|];
        [destruct (truthy_string k)|]; by rewrite ?with_values_id.
    + intros m0 -> ->. unfold restore_credential. unfold restore_values; cbn [foldl].
      destruct (getItem "openai-api-key" m) as [k|];
        [destruct (truthy_string k)|]; by rewrite ?with_values_id.
Qed.

Lemma restore_values_lookup entries : ∀ V key,
  restore_values V entries !! key =
  if String.eqb key "apiKey" then V !! key
  else match last_entry key entries with
       | Some v => Some v
       | None => V !! key
       end.
Proof.
  induction entries as [|kv entries IH]; intros V key.
  - cbn. by destruct (String.eqb key "apiKey").
  - change (restore_values V (kv :: entries)) with
      (restore_values
         (if String.eqb kv.1 "apiKey" then V else <[kv.1 := kv.2]> V) entries).
    rewrite IH. cbn [last_entry].
    destruct (String.eqb_spec key "apiKey") as [->|Hk].
    + destruct (String.eqb_spec kv.1 "apiKey") as [He|He]; [done|].
      by rewrite lookup_insert_ne.
    + destruct (last_entry key entries); [done|].
      destruct (String.eqb_spec kv.1 "apiKey") as [He|He].
      * destruct (String.eqb_spec kv.1 key); [congruence|done].
      * destruct (String.eqb_spec kv.1 key) as [<-|];
          [by rewrite lookup_insert_eq | by rewrite lookup_insert_ne].
Qed.

Lemma restore_twice saved V entries :
  restore_credential saved
    (restore_values (restore_credential saved (restore_values V entries)) entries)
  = restore_credential saved (restore_values V entries).
Proof.
  apply map_eq. intros key.
  assert (Hc : ∀ W, restore_credential saved W !! key =
    match saved with
    | Some k => if truthy_string k
                then (if String.eqb key "apiKey" then Some (JStr k) else W !! key)
                else W !! key
    | None => W !! key
    end).
  { intros W. unfold restore_credential. destruct saved as [k|]; [|done].
    destruct (truthy_string k); [|done].
    destruct (String.eqb_spec key "apiKey") as [->|];
      [by rewrite lookup_insert_eq | by rewrite lookup_insert_ne]. }
  rewrite !Hc, !restore_values_lookup, !Hc, !restore_values_lookup.
  destruct saved as [k|]; [destruct (truthy_string k)|];
    destruct (String.eqb key "apiKey"); try done;
    by destruct (last_entry key entries).
Qed.


(** X7: a load that completes only reads: the store, the effects so far
    and the model list are as before and the form is mounted; with no
    form-data entry in the store, every field but the credential keeps
    its value. *)
Theorem load_only_reads (m m' : machine) :
  loadEffect m = Done m' →
  localStorage m' = localStorage m ∧ log m' = log m ∧ models m' = models m ∧
  mounted m' = true ∧
  ∀ key, key ≠ "apiKey" → getItem STORAGE_KEY m = None →
         values m' !! key = values m !! key.
Proof.
  intros H.
  assert (Hlast : ∀ key, key ≠ "apiKey" → getItem STORAGE_KEY m = None →
                         values m' !! key = values m !! key).
  { intros key Hk Hnone. unfold loadEffect in H. rewrite Hnone in H.
    assert (m' = with_mounted true
              match getItem "openai-api-key" m with
              | Some k => if truthy_string k then setValue "apiKey" (JStr k) m else m
              | None => m
              end) as -> by congruence.
    destruct (getItem "openai-api-key" m) as [k|];
      [destruct (truthy_string k)|]; cbn; try done. by rewrite lookup_insert_ne. }
  destruct (loadEffect_done _ _ H) as (entries & -> & _).
  repeat split; try reflexivity. exact Hlast.
Qed.

(** *** The pending save *)

(** The timer was not touched: what held of it holds. *)
Ltac keep_pending Hm :=
  let H := fresh in
  intros H; destruct (Hm _ _ H) as [? ?]; split; first [done | congruence].

Lemma step_pending_is_current e m :
  (∀ due fd, timeoutId m = Some (due, fd) → fd = values m ∧ mounted m = true) →
  ∀ due fd, timeoutId (step e m) = Some (due, fd) →
    fd = values (step e m) ∧ mounted (step e m) = true.
Proof.
  intros Hm due fd.
  assert (Hr : ∀ x, mounted x = true →
    timeoutId (rendered m x) = Some (due, fd) →
    fd = values (rendered m x) ∧ mounted (rendered m x) = true).
  { intros x Hx. destruct (rendered_frame m x) as (->&->&_).
    rewrite rendered_timeoutId, Hx. by intros [= <- <-]. }
  assert (Hu : ∀ x, mounted x = mounted m → values x = values m →
    timeoutId x = timeoutId m →
    timeoutId (rendered m x) = Some (due, fd) →
    fd = values (rendered m x) ∧ mounted (rendered m x) = true).
  { intros x Hx Hv Ht. destruct (rendered_frame m x) as (Hv'&Hm'&_).
    rewrite rendered_timeoutId, Hv', Hm'. destruct (mounted x) eqn:Ex.
    - by intros [= <- <-].
    - rewrite Ht, Hv. intros H. destruct (Hm _ _ H) as [? ?].
      split; [done | congruence]. }
  destruct e; cbn [step].
  - destruct (mounted m) eqn:Em; [keep_pending Hm|].
    destruct (loadEffect m) as [m'| |] eqn:E; [|keep_pending Hm|keep_pending Hm].
    apply Hr. by apply loadEffect_frame in E as (?&_).
  - destruct (mounted m) eqn:Em; [|keep_pending Hm]. by apply Hr.
  - destruct (mounted m) eqn:Em; [|keep_pending Hm]. by apply Hr.
  - by apply Hu.
  - apply Hm.
  - destruct (timeoutId m) as [[due' fd']|] eqn:Et; [|by rewrite Et].
    destruct (due' <=? now m); [|rewrite Et; intros [= <- <-]; apply (Hm _ _ eq_refl)].
    unfold save_timeout. by repeat case_match.
  - destruct (fetchTimer m) as [[due' k]|]; [|apply Hm].
    destruct (due' <=? now m); [|apply Hm].
    apply Hu; unfold fetchModels_begin; by repeat case_match.
  - destruct (0 <? inflight m); [|apply Hm].
    apply Hu; by destruct r.
Qed.

Lemma run_pending_is_current evs : ∀ m,
  (∀ due fd, timeoutId m = Some (due, fd) → fd = values m ∧ mounted m = true) →
  ∀ due fd, timeoutId (run evs m) = Some (due, fd) →
    fd = values (run evs m) ∧ mounted (run evs m) = true.
Proof.
  induction evs as [|e evs IH]; intros m Hm; [done|].
  cbn [run foldl]. apply IH. by apply step_pending_is_current.
Qed.

(** X8: along any run, a pending save holds the values the form has at
    that moment (and there is one only once the form is mounted), so the
    text a firing save writes is the snapshot of the form as it is. *)
Theorem save_writes_the_form_as_it_is
    (store : gmap string string) (evs : list event) :
  let m := run evs (initial store) in
  (∀ due fd, timeoutId m = Some (due, fd) → fd = values m ∧ mounted m = true) ∧
  (∀ text, SetItem STORAGE_KEY text ∈ added m (step SaveTimeout m) →
     text = snapshot_of (values m)).
Proof.
  intros m.
  assert (Hm : ∀ due fd, timeoutId m = Some (due, fd) →
                 fd = values m ∧ mounted m = true).
  { apply run_pending_is_current. done. }
  split; [exact Hm|]. intros text Hin.
  destruct (step_added SaveTimeout m)
    as [E|[(n&E)|[E|[(due&fd&_&Ht&_&E)|[(k&E)|(msg&E)]]]]];
    rewrite E in Hin;
    try (repeat (apply elem_of_cons in Hin as [?|Hin]; [done|]);
         by apply elem_of_nil in Hin).
  destruct (Hm _ _ Ht) as [-> _]. rewrite save_timeout_added in Hin.
  apply elem_of_cons in Hin as [[= ->]|Hin]; [done|].
  destruct (values m !! "apiKey") as [k|]; [destruct (truthy (Some k))|];
    repeat (apply elem_of_cons in Hin as [?|Hin]; [done|]);
    by apply elem_of_nil in Hin.
Qed.

(** *** The reset and the debounce *)

Lemma rendering_then_wait e ms m :
  timeoutId (step e m) = Some (now (step e m) + 300, values (step e m)) →
  300 ≤ ms →
  localStorage (run [e; Advance ms; SaveTimeout] m) =
  localStorage (save_timeout (values (step e m)) (step e m)).
Proof.
  intros Ht Hms. change (run (?a :: ?r) m) with (run r (step a m)).
  rewrite (fire_after _ _ _ Ht Hms). by apply save_timeout_store.
Qed.

Lemma resetForm_values m k :
  values m !! "apiKey" = Some (JStr k) →
  values (resetForm m) = to_object (cleared_form k).
Proof. intros H. unfold resetForm. rewrite H. reflexivity. Qed.

(** X9: a reset of a mounted form removes the form-data entry at once,
    but the reset itself schedules a save: once 300 ms have passed the
    entry is back, holding the cleared form, and a reload over that store
    restores the cleared values for every field but the credential. *)
Theorem reset_entry_returns_after_the_debounce
    (m : machine) (k : string) (ms : nat) :
  mounted m = true → values m !! "apiKey" = Some (JStr k) → 300 ≤ ms →
  localStorage (step ClickReset m) !! STORAGE_KEY = None ∧
  localStorage (run [ClickReset; Advance ms; SaveTimeout] m) !! STORAGE_KEY
    = Some (saved_text (cleared_form k)) ∧
  ∃ m2, loadEffect (initial (localStorage
                      (run [ClickReset; Advance ms; SaveTimeout] m))) = Done m2 ∧
        ∀ f, f ≠ F_apiKey →
             values m2 !! name_of f = to_object (cleared_form k) !! name_of f.
Proof.
  intros Hm Hk Hms.
  assert (Hstep : step ClickReset m = rendered m (resetForm m))
    by (cbn [step]; by rewrite Hm).
  destruct (rendered_frame m (resetForm m)) as (Hv&_&_&Hs&Hn&_).
  assert (Ht : timeoutId (step ClickReset m)
               = Some (now (step ClickReset m) + 300, values (step ClickReset m))).
  { rewrite Hstep, rendered_timeoutId, Hv, Hn.
    replace (mounted (resetForm m)) with (mounted m) by reflexivity.
    by rewrite Hm. }
  split.
  { rewrite Hstep, Hs. apply lookup_delete_eq. }
  rewrite (rendering_then_wait _ _ _ Ht Hms).
  rewrite Hstep, Hv, (resetForm_values _ _ Hk), save_timeout_typed.
  split.
  { destruct (truthy_string (apiKey (cleared_form k)));
      [rewrite lookup_insert_ne by done|]; apply lookup_insert_eq. }
  destruct (load_after_save (cleared_form k) (localStorage (rendered m (resetForm m))))
    as (m2 & Hl & Hv2 & _).
  exists m2. split; [exact Hl|]. intros f Hf. rewrite Hv2.
  destruct f; try done; reflexivity.
Qed.

(** *** The model list over a run *)

Lemma save_timeout_models fd m :
  models (save_timeout fd m) = models m ∧
  isLoadingModels (save_timeout fd m) = isLoadingModels m ∧
  inflight (save_timeout fd m) = inflight m.
Proof.
  unfold save_timeout. generalize (stringify_object
    [("model", fd !! "model"); ("aiName", fd !! "aiName");
     ("companyName", fd !! "companyName"); ("industry", fd !! "industry");
     ("targetAudience", fd !! "targetAudience"); ("challenges", fd !! "challenges");
     ("product", fd !! "product"); ("objective", fd !! "objective");
     ("objections", fd !! "objections"); ("additionalInfo", fd !! "additionalInfo")]).
  intros text. destruct (fd !! "apiKey") as [k|]; [destruct (truthy (Some k))|]; done.
Qed.

Lemma step_models_state e m :
  (models (step e m) = models m ∧
   isLoadingModels (step e m) = isLoadingModels m ∧
   inflight (step e m) = inflight m) ∨
  (models (step e m) = models m ∧
   isLoadingModels (step e m) = true ∧ inflight (step e m) = S (inflight m)) ∨
  (∃ r, 0 < inflight m ∧
        models (step e m) = models (fetchModels_settle r m) ∧
        isLoadingModels (step e m) = false ∧
        inflight (step e m) = pred (inflight m)).
Proof.
  destruct e; cbn [step].
  - left. destruct (mounted m); [done|].
    destruct (loadEffect m) as [m'| |] eqn:E; [|done|done].
    destruct (loadEffect_done _ _ E) as (entries & -> & _).
    match goal with |- context [rendered ?m0 ?x] =>
      destruct (rendered_frame m0 x) as (_&_&_&_&_&->&_&->&->) end. done.
  - left. destruct (mounted m); [|done].
    match goal with |- context [rendered ?m0 ?x] =>
      destruct (rendered_frame m0 x) as (_&_&_&_&_&->&_&->&->) end. done.
  - left. destruct (mounted m); [|done].
    match goal with |- context [rendered ?m0 ?x] =>
      destruct (rendered_frame m0 x) as (_&_&_&_&_&->&_&->&->) end. done.
  - left. destruct (rendered_frame m m) as (_&_&_&_&_&->&_&->&->). done.
  - by left.
  - left. destruct (timeoutId m) as [[due fd]|]; [|done].
    destruct (due <=? now m); [|done]. apply save_timeout_models.
  - destruct (fetchTimer m) as [[due k]|]; [|by left].
    destruct (due <=? now m); [|by left].
    match goal with |- context [rendered ?m0 ?x] =>
      destruct (rendered_frame m0 x) as (_&_&_&_&_&->&_&->&->) end.
    unfold fetchModels_begin. destruct (_ || _); [by left|]. right; left. done.
  - destruct (Nat.ltb_spec 0 (inflight m)); [|by left].
    right; right. exists r.
    match goal with |- context [rendered ?m0 ?x] =>
      destruct (rendered_frame m0 x) as (_&_&_&_&_&->&_&->&->) end.
    split; [done|]. by destruct r.
Qed.

Lemma settle_defaults_first r m :
  defaults_first (models m) → defaults_first (models (fetchModels_settle r m)).
Proof.
  intros H. destruct r as [data|message]; [|exact H].
  eexists. split; [reflexivity|].
  apply Forall_forall. intros x Hx. apply list_elem_of_In, filter_In in Hx as [_ Hx].
  by apply negb_true_iff.
Qed.

Lemma run_models_state (evs : list event) (m : machine) :
  defaults_first (models m) ∧ (isLoadingModels m = true → 0 < inflight m) →
  defaults_first (models (run evs m)) ∧
  (isLoadingModels (run evs m) = true → 0 < inflight (run evs m)).
Proof.
  revert m. induction evs as [|e evs IH]; intros m Hm; [done|].
  cbn [run foldl]. apply IH. destruct Hm as [Hd Hl].
  destruct (step_models_state e m)
    as [(->&->&->)|[(->&->&->)|(r&Hr&->&->&->)]]; split; try done; try lia.
  by apply settle_defaults_first.
Qed.

Lemma initial_models_state (store : gmap string string) :
  defaults_first (models (initial store)) ∧
  (isLoadingModels (initial store) = true → 0 < inflight (initial store)).
Proof. split; [|done]. exists []. by split. Qed.

(** X10: whatever happens to the form, the model list begins with the two
    default models, in their order, and names neither of them again. *)
Theorem defaults_always_lead_the_model_list
    (store : gmap string string) (evs : list event) :
  defaults_first (models (run evs (initial store))).
Proof. apply run_models_state, initial_models_state. Qed.

(** X11: whenever the model list is marked as loading, a request for the
    models is in flight. *)
Theorem loading_flag_means_a_request_in_flight
    (store : gmap string string) (evs : list event) :
  isLoadingModels (run evs (initial store)) = true →
  0 < inflight (run evs (initial store)).
Proof. apply run_models_state, initial_models_state. Qed.

(** *** A stored credential and the first fetch *)


(** *** The history list *)

Module HistoryMore.
Import PromptHistory HistoryRow.

#[local] Arguments String.append : simpl nomatch.

Lemma nth_page_take_drop history p :
  nth_page history p = take 10 (drop (10 * p) history).
Proof.
  apply list_eq. intros i. unfold nth_page.
  rewrite HistoryFacts.currentItems_lookup by (cbn; lia).
  cbn [currentPage page]. rewrite Nat2Z.id.
  destruct (decide (i < 10)).
  - rewrite lookup_take_lt by done. rewrite lookup_drop. f_equal. lia.
  - symmetry. apply lookup_ge_None_2. rewrite length_take. lia.
Qed.

Lemma pages_cover n : ∀ (l : list PromptHistoryItem),
  length l ≤ 10 * n →
  mjoin ((λ p, take 10 (drop (10 * p) l)) <$> seq 0 n) = l.
Proof.
  induction n as [|n IH]; intros l Hl.
  - destruct l; [done | cbn in Hl; lia].
  - etrans; [|apply (take_drop 10 l)].
    change (seq 0 (S n)) with (0 :: seq 1 n).
    rewrite fmap_cons. cbn [mjoin list_join]. f_equal.
    rewrite <- fmap_S_seq, <- list_fmap_compose.
    rewrite <- (IH (drop 10 l)) by (rewrite length_drop; lia).
    f_equal. apply list_fmap_ext. intros _ p _. cbn [compose].
    rewrite drop_drop. do 2 f_equal. lia.
Qed.

Lemma totalPages_bounds history :
  (0 ≤ totalPages history)%Z ∧
  length history ≤ 10 * Z.to_nat (totalPages history) ∧
  (history ≠ [] → 10 * Z.to_nat (totalPages history) < length history + 10).
Proof.
  unfold totalPages, ITEMS_PER_PAGE.
  pose proof (Z.div_mod (Z.of_nat (length history) + 10 - 1) 10 ltac:(lia)).
  pose proof (Z.mod_pos_bound (Z.of_nat (length history) + 10 - 1) 10 ltac:(lia)).
  assert (0 ≤ (Z.of_nat (length history) + 10 - 1) / 10)%Z
    by (apply Z.div_pos; lia).
  repeat split; try lia.
Qed.

(** X13: the pages, taken in order, make up the history: no item is left
    out, none is shown twice, and the order is kept. *)
Theorem pages_partition_the_history (history : list PromptHistoryItem) :
  mjoin (nth_page history <$> seq 0 (Z.to_nat (totalPages history))) = history.
Proof.
  erewrite list_fmap_ext; [apply pages_cover, totalPages_bounds|].
  intros _ p _. apply nth_page_take_drop.
Qed.

(** X14: every existing page shows at least one item and at most ten;
    every page but the last shows exactly ten, and the last shows what
    remains. *)
Theorem only_the_last_page_is_short (history : list PromptHistoryItem) (p : nat) :
  p < Z.to_nat (totalPages history) →
  0 < length (nth_page history p) ≤ 10 ∧
  (p + 1 < Z.to_nat (totalPages history) → length (nth_page history p) = 10) ∧
  (p + 1 = Z.to_nat (totalPages history) →
     length (nth_page history p) = length history - 10 * p).
Proof.
  intros Hp. rewrite nth_page_take_drop, length_take, length_drop.
  destruct (totalPages_bounds history) as (H0 & H1 & H2).
  assert (history ≠ []) as Hne.
  { intros ->. vm_compute in Hp. lia. }
  specialize (H2 Hne). lia.
Qed.

(** X15: from a page that exists, no sequence of clicks on the two page
    buttons leads to a page that does not. *)
Theorem clicks_keep_the_page_in_range (history : list PromptHistoryItem)
    (clicks : list button) (s : state) :
  (0 ≤ currentPage s < totalPages history)%Z →
  (0 ≤ currentPage (foldl (click history) s clicks) < totalPages history)%Z.
Proof.
  revert s. induction clicks as [|b clicks IH]; intros s Hs; [done|].
  cbn [foldl]. apply IH. unfold click, click_previous, click_next.
  destruct b; repeat case_match; cbn; lia.
Qed.

(** X16: the page number is not adjusted to the history: on a later page,
    once the history has ten items or fewer, no item is shown and there is
    no page button to click. *)
Theorem short_history_strands_a_later_page (history : list PromptHistoryItem)
    (s : state) :
  (0 < currentPage s)%Z → length history ≤ 10 →
  currentItems history s = [] ∧
  click_previous history s = None ∧ click_next history s = None.
Proof.
  intros Hp Hl.
  assert (Ht : (totalPages history ≤ 1)%Z).
  { unfold totalPages, ITEMS_PER_PAGE.
    apply Z.lt_succ_r, Z.div_lt_upper_bound; lia. }
  split; [|split].
  - unfold currentItems, slice, endIndex, startIndex, ITEMS_PER_PAGE.
    destruct (Z.ltb_spec (currentPage s * 10) 0); [lia|].
    destruct (Z.ltb_spec (currentPage s * 10 + 10) 0); [lia|].
    apply length_zero_iff_nil. rewrite length_take, length_drop. lia.
  - unfold click_previous. destruct (Z.ltb_spec 1 (totalPages history)); [lia|done].
  - unfold click_next. destruct (Z.ltb_spec 1 (totalPages history)); [lia|done].
Qed.

(** X17: a toggle flips the open state of its item and of no other and
    leaves the page alone; two toggles of an item restore the state. *)
Theorem toggle_twice_is_no_toggle (item_id : string) (s : state) :
  toggleItem item_id (toggleItem item_id s) = s ∧
  (item_id ∈ openItems (toggleItem item_id s) ↔ item_id ∉ openItems s) ∧
  (∀ other, other ≠ item_id →
     (other ∈ openItems (toggleItem item_id s) ↔ other ∈ openItems s)) ∧
  currentPage (toggleItem item_id s) = currentPage s.
Proof.
  destruct s as [p o]. unfold toggleItem. cbn [currentPage openItems].
  split; [|split; [|split]].
  - f_equal. destruct (decide (item_id ∈ o)).
    + rewrite decide_False by set_solver.
      apply set_eq. intros x. destruct (decide (x = item_id)); set_solver.
    + rewrite decide_True by set_solver.
      apply set_eq. intros x. destruct (decide (x = item_id)); set_solver.
  - destruct (decide (item_id ∈ o)); set_solver.
  - intros other Hne. destruct (decide (item_id ∈ o)); set_solver.
  - done.
Qed.

(** The title of a row. *)

Lemma first_line_prefix s :
  ∃ rest, s = first_line s +:+ rest ∧
          (rest = EmptyString ∨ ∃ r, rest = String "010" r).
Proof.
  induction s as [|c s (rest & Hs & Hr)]; [exists EmptyString; by split; [|left]|].
  cbn [first_line]. destruct (Ascii.eqb_spec c "010"%char) as [->|Hc].
  - exists (String "010" s). split; [done|]. right. by exists s.
  - exists rest. split; [|done]. cbn. by rewrite <- Hs.
Qed.

Lemma first_line_no_newline s : ∀ i, String.get i (first_line s) ≠ Some "010"%char.
Proof.
  induction s as [|c s IH]; intros i; [by destruct i|].
  cbn [first_line]. destruct (Ascii.eqb_spec c "010"%char) as [->|Hc];
    [by destruct i|].
  destruct i; cbn; [congruence | apply IH].
Qed.

Lemma substring_prefix n : ∀ s,
  ∃ rest, s = String.substring 0 n s +:+ rest ∧
          String.length (String.substring 0 n s) = Nat.min n (String.length s).
Proof.
  induction n as [|n IH]; intros s.
  - exists s. by destruct s.
  - destruct s as [|c s]; [by exists EmptyString|].
    destruct (IH s) as (rest & Hs & Hl). exists rest. cbn. split; [by rewrite <- Hs|].
    by rewrite Hl.
Qed.

Lemma substring_get n : ∀ s i c,
  String.get i (String.substring 0 n s) = Some c → String.get i s = Some c.
Proof.
  induction n as [|n IH]; intros s i c.
  - destruct s; by destruct i.
  - destruct s as [|a s]; [by destruct i|]. destruct i; cbn; [done | apply IH].
Qed.


End HistoryMore.

(** *** The result and its storage entry *)

Module ResultFacts.
Import ResultStorage.

Lemma persist_effect_spec m :
  container (persist_effect m) = container m ∧
  localStorage (persist_effect m) !! STORAGE_KEY
    = stored_result (PromptContainer.result (container m)) ∧
  ∀ key, key ≠ STORAGE_KEY →
    localStorage (persist_effect m) !! key = localStorage m !! key.
Proof.
  unfold persist_effect, stored_result.
  destruct (PromptContainer.result (container m)) as [r|];
    [destruct (truthy_string r)|]; cbn; repeat split;
    try apply lookup_insert_eq; try apply lookup_delete_eq;
    intros key Hk; by rewrite ?lookup_insert_ne, ?lookup_delete_ne.
Qed.

Lemma update_mirrors store f m : mirrors store m → mirrors store (update f m).
Proof.
  intros [H1 H2]. unfold update, rendered. cbn [container].
  destruct (decide _) as [E|E].
  - split; cbn [container localStorage]; [by rewrite <- E|done].
  - destruct (persist_effect_spec
                {| container := f (container m); localStorage := localStorage m |})
      as (Hc & Hs & Ho).
    split; [by rewrite Hs, Hc|]. intros key Hk. rewrite Ho by done. by apply H2.
Qed.

Lemma mount_mirrors store : mirrors store (mount (initial store)).
Proof.
  assert (H0 : mirrors store (persist_effect (initial store))).
  { destruct (persist_effect_spec (initial store)) as (Hc & Hs & Ho).
    split; [by rewrite Hs, Hc | done]. }
  unfold mount. destruct (localStorage (initial store) !! STORAGE_KEY) as [r|];
    [destruct (truthy_string r)|]; try done. by apply update_mirrors.
Qed.

Lemma step_mirrors store m e : mirrors store m → mirrors store (step m e).
Proof.
  intros H. destruct e; cbn [step]; try by apply update_mirrors.
  - destruct (PromptForm.click_submit _ _ _ _) as [[? c']|]; [|done].
    by apply update_mirrors.
  - destruct (PromptContainer.isLoading (container m)); [|done].
    by apply update_mirrors.
Qed.

(** X19: after the mount and any sequence of events, the entry under the
    result key is the result on display (no entry when there is none or
    it is empty), and every other entry of the store is as it was. *)
Theorem store_mirrors_the_result
    (store : gmap string string) (evs : list event) :
  localStorage (run evs store) !! STORAGE_KEY
    = stored_result (PromptContainer.result (container (run evs store))) ∧
  ∀ key, key ≠ STORAGE_KEY → localStorage (run evs store) !! key = store !! key.
Proof.
  unfold run. generalize (mount_mirrors store).
  generalize (mount (initial store)).
  induction evs as [|e evs IH]; intros m Hm; [exact Hm|].
  cbn [foldl]. apply IH. by apply step_mirrors.
Qed.

(** X20: over a store with a non-empty saved result, the mount puts that
    result on display and leaves the store as it found it. *)
Theorem mount_shows_and_keeps_the_saved_result
    (store : gmap string string) (r : string) :
  store !! STORAGE_KEY = Some r → r ≠ EmptyString →
  PromptContainer.result (container (mount (initial store))) = Some r ∧
  localStorage (mount (initial store)) = store.
Proof.
  intros Hs Hr. unfold mount. cbn [localStorage initial]. rewrite Hs.
  destruct r as [|c r]; [done|]. cbn [truthy_string].
  unfold update, rendered, persist_effect. cbn.
  split; [done|]. rewrite insert_delete_eq. by apply insert_id.
Qed.

(** Calls of the generator, and answers, along a run. *)
Lemma update_calls f m :
  PromptContainer.log (container (update f m)) = PromptContainer.log (f (container m)) ∧
  PromptContainer.isLoading (container (update f m))
    = PromptContainer.isLoading (f (container m)).
Proof.
  unfold update, rendered. destruct (decide _); [done|].
  by destruct (persist_effect_spec
                 {| container := f (container m); localStorage := localStorage m |})
    as (-> & _).
Qed.

Lemma mount_calls store :
  PromptContainer.log (container (mount (initial store))) = [] ∧
  PromptContainer.isLoading (container (mount (initial store))) = false.
Proof.
  unfold mount.
  destruct (persist_effect_spec (initial store)) as (Hc & _).
  destruct (localStorage (initial store) !! STORAGE_KEY) as [r|];
    [destruct (truthy_string r)|]; rewrite ?Hc; try done.
  destruct (update_calls (PromptContainer.handleRestorePrompt r)
              (persist_effect (initial store))) as [-> ->]. by rewrite Hc.
Qed.

Lemma step_calls m e :
  calls (step m e) + idle (step m e)
  ≤ calls m + idle m + (if is_settled e then 1 else 0).
Proof.
  unfold calls, idle, PromptContainer.generator_calls.
  destruct e; cbn [step is_settled].
  - unfold PromptForm.click_submit, PromptForm.form_handleSubmit,
      PromptForm.handleSubmit.
    destruct (PromptContainer.isLoading (container m)) eqn:El;
      cbn iota; [rewrite ?El; lia|].
    destruct (PromptForm.formSchema _) as [v|issues]; cbn iota.
    + destruct (update_calls (λ _, PromptContainer.handleSubmit_begin v (container m)) m)
        as [-> ->].
      cbn. rewrite omap_app, length_app. cbn. lia.
    + destruct (update_calls (λ _, container m) m) as [-> ->]. rewrite El. lia.
  - destruct (PromptContainer.isLoading (container m)) eqn:El; [|rewrite El; lia].
    destruct (update_calls (PromptContainer.handleSubmit_settle r) m) as [-> ->].
    destruct r; cbn; [lia|]. rewrite omap_app, length_app. cbn. lia.
  - destruct (update_calls (PromptContainer.handleRestoreFormData formData) m)
      as [-> ->]. cbn. lia.
  - destruct (update_calls (PromptContainer.handleRestorePrompt prompt) m)
      as [-> ->]. cbn. lia.
  - destruct (update_calls PromptContainer.handleClearPrompt m) as [-> ->]. cbn. lia.
Qed.

(** X21: along any run the generator is called at most once more than it
    has answered, and no more often than it has answered whenever no
    generation is shown as running: a second call is never made while
    one is in flight. *)
Theorem one_generation_at_a_time
    (store : gmap string string) (evs : list event) :
  length (PromptContainer.generator_calls
            (PromptContainer.log (container (run evs store))))
  ≤ S (length (List.filter is_settled evs)) ∧
  (PromptContainer.isLoading (container (run evs store)) = false →
   length (PromptContainer.generator_calls
             (PromptContainer.log (container (run evs store))))
   ≤ length (List.filter is_settled evs)).
Proof.
  assert (H : ∀ m, calls (foldl step m evs) + idle (foldl step m evs)
                   ≤ calls m + idle m + length (List.filter is_settled evs)).
  { induction evs as [|e evs IH]; intros m; cbn [foldl List.filter]; [lia|].
    specialize (IH (step m e)). pose proof (step_calls m e).
    destruct (is_settled e); cbn [length]; lia. }
  specialize (H (mount (initial store))).
  destruct (mount_calls store) as [Hl Hi].
  unfold calls, idle in H. rewrite Hl, Hi in H. cbn in H. fold (run evs store) in H.
  split.
  - destruct (PromptContainer.isLoading _); lia.
  - intros E. rewrite E in H. lia.
Qed.

End ResultFacts.

(* ===================================================================== *)
(** ** The further statements at sample inputs                        *)
(* ===================================================================== *)

Lemma filled_form_witness :
  formSchema (to_object sample_form) = Success sample_form ∧
  Forall (λ s, s ≠ EmptyString) (required_fields sample_form).
Proof.
  split; [reflexivity|].
  apply (formSchema_accepts_only_filled_forms (to_object sample_form) sample_form).
  reflexivity.
Defined.

Lemma snapshot_witness :
  log (run [Mount; Input F_companyName "Acme"; Advance 300; SaveTimeout] (initial ∅))
    = [SetItem STORAGE_KEY (saved_text acme_form)] ∧
  ∃ ms, saved_text acme_form = JSON.stringify (JObj ms) ∧
        Forall (λ kv : string * json, kv.1 ∈ snapshot_names) ms ∧
        Forall (λ kv : string * json, kv.1 ≠ "apiKey") ms.
Proof.
  assert (H : log (run [Mount; Input F_companyName "Acme"; Advance 300; SaveTimeout]
                     (initial ∅))
              = [SetItem STORAGE_KEY (saved_text acme_form)]) by reflexivity.
  split; [exact H|].
  apply (snapshot_never_holds_the_credential ∅
           [Mount; Input F_companyName "Acme"; Advance 300; SaveTimeout]).
  rewrite H. apply list_elem_of_here.
Defined.


Lemma load_only_reads_witness :
  ∃ m', loadEffect (initial {[ "openai-api-key" := "sk-old" ]}) = Done m' ∧
        localStorage m' = {[ "openai-api-key" := "sk-old" ]} ∧ mounted m' = true.
Proof.
  assert (H : ∃ m', loadEffect (initial {[ "openai-api-key" := "sk-old" ]})
                    = Done m') by (eexists; reflexivity).
  destruct H as [m' H]. exists m'. split; [exact H|].
  destruct (load_only_reads _ m' H) as (H1 & _ & _ & H4 & _).
  split; [exact H1 | exact H4].
Defined.

Lemma reset_entry_witness :
  localStorage
    (run [ClickReset; Advance 300; SaveTimeout]
       (run [Mount; Input F_apiKey "sk-typed"; Input F_companyName "Acme"]
          (initial ∅))) !! STORAGE_KEY
  = Some (saved_text (cleared_form "sk-typed")).
Proof.
  destruct (reset_entry_returns_after_the_debounce
              (run [Mount; Input F_apiKey "sk-typed"; Input F_companyName "Acme"]
                 (initial ∅)) "sk-typed" 300) as (_ & H & _).
  - reflexivity.
  - reflexivity.
  - lia.
  - exact H.
Defined.


Lemma loading_flag_witness :
  0 < inflight (run [Mount; Input F_apiKey key_a; Advance 500; FetchTimeout]
                  (initial ∅)).
Proof.
  apply (loading_flag_means_a_request_in_flight ∅
           [Mount; Input F_apiKey key_a; Advance 500; FetchTimeout]).
  reflexivity.
Defined.

Lemma last_page_witness :
  length (nth_page sample_history 2) = length sample_history - 10 * 2.
Proof.
  destruct (HistoryMore.only_the_last_page_is_short sample_history 2) as (_ & _ & H).
  - vm_compute. lia.
  - apply H. reflexivity.
Defined.

Lemma clicks_witness :
  (0 ≤ PromptHistory.currentPage
         (foldl (HistoryRow.click sample_history) (page 0)
            [HistoryRow.Next; HistoryRow.Next; HistoryRow.Next; HistoryRow.Previous])
     < PromptHistory.totalPages sample_history)%Z.
Proof.
  apply (HistoryMore.clicks_keep_the_page_in_range sample_history).
  vm_compute. split; [discriminate | reflexivity].
Defined.

Lemma stranded_page_witness :
  PromptHistory.currentItems (take 5 sample_history) (page 1) = [] ∧
  PromptHistory.click_previous (take 5 sample_history) (page 1) = None.
Proof.
  destruct (HistoryMore.short_history_strands_a_later_page
              (take 5 sample_history) (page 1)) as (H1 & H2 & _).
  - reflexivity.
  - vm_compute. lia.
  - split; [exact H1 | exact H2].
Defined.

Lemma saved_result_witness :
  PromptContainer.result
    (ResultStorage.container
       (ResultStorage.mount
          (ResultStorage.initial {[ ResultStorage.STORAGE_KEY := "Hello" ]})))
  = Some "Hello".
Proof.
  destruct (ResultFacts.mount_shows_and_keeps_the_saved_result
              {[ ResultStorage.STORAGE_KEY := "Hello" ]} "Hello") as [H _].
  - reflexivity.
  - discriminate.
  - exact H.
Defined.
